(** * jquery.mapify.js (plugin [googleMaps]): a shallow embedding

    The plugin is a jQuery adapter around the Google Maps API.  Its state is
    a handful of script-level variables ([Plugin.loaded], [window.googleMaps],
    [resizeTimer]), the plugin instances stored in the elements' data, and
    the objects it creates through the mapping API.  The embedding threads a
    [world] holding all of them through a state-and-exception monad; the
    mapping API, the browser and jQuery are modelled by their interface. *)

From Stdlib Require Import PrimFloat.
From stdpp Require Import base option list strings.

#[local] Set Warnings "-register-all".

(** ** JavaScript values *)

(** What a call of a function of the page does, as far as the plugin can
    tell: it returns, or it throws. *)
Inductive behaviour := Returns | Throws.

Inductive jsval :=
| VUndefined
| VNull
| VBool (b : bool)
| VNum (x : float)
| VStr (s : string)
| VObj (fields : list (string * jsval))
| VArr (items : list jsval)
| VFun (f : nat) (b : behaviour).

Definition js_object := list (string * jsval).

(** ToBoolean: [false], [0], [-0], [NaN], the empty string, [null] and
    [undefined] are falsy. *)
Definition truthy (v : jsval) : bool :=
  match v with
  | VUndefined | VNull => false
  | VBool b => b
  | VNum x => PrimFloat.eqb x x && negb (PrimFloat.eqb x 0%float)
  | VStr s => negb (String.eqb s EmptyString)
  | VObj _ | VArr _ | VFun _ _ => true
  end.

(** [typeof v !== 'undefined'] *)
Definition defined (v : jsval) : bool :=
  match v with VUndefined => false | _ => true end.

Fixpoint obj_lookup (k : string) (o : js_object) : option jsval :=
  match o with
  | [] => None
  | (k', v) :: o' => if String.eqb k k' then Some v else obj_lookup k o'
  end.

(** [o[k]]: a missing property reads as [undefined]. *)
Definition obj_get (k : string) (o : js_object) : jsval :=
  default VUndefined (obj_lookup k o).

(** [o[k] = v] *)
Fixpoint obj_set (k : string) (v : jsval) (o : js_object) : js_object :=
  match o with
  | [] => [(k, v)]
  | (k', v') :: o' =>
      if String.eqb k k' then (k, v) :: o' else (k', v') :: obj_set k v o'
  end.

(** [v.k] on a value that is neither [null] nor [undefined]; primitives,
    arrays and functions have none of the properties the plugin reads. *)
Definition prop (v : jsval) (k : string) : jsval :=
  match v with VObj o => obj_get k o | _ => VUndefined end.

(** [$.extend(target, src)], shallow: every enumerable property of [src]
    whose value is not [undefined] is copied over [target]; a source that is
    not an object contributes no named property. *)
Definition jq_extend (target : js_object) (src : jsval) : js_object :=
  match src with
  | VObj o =>
      fold_left
        (fun t kv =>
           match obj_get kv.1 o with
           | VUndefined => t
           | copy => obj_set kv.1 copy t
           end) o target
  | _ => target
  end.

(** The items [$.each(v, fn)] visits, in order; [None] when [$.each]
    throws.  jQuery (as of version 3) first asks whether [v] is array-like,
    and for a truthy [v] this evaluates ["length" in v], a [TypeError] when
    [v] is a primitive: a non-empty string, a number other than zero and
    [NaN], or [true].  An array is visited by index; a plain object by its
    properties (the fields of a [VObj] are listed in the order of
    enumeration); a falsy value and a function have nothing to visit. *)
Definition each_items (v : jsval) : option (list jsval) :=
  match v with
  | VArr l => Some l
  | VObj o => Some o.*2
  | VUndefined | VNull | VFun _ _ => Some []
  | VBool _ | VNum _ | VStr _ => if truthy v then None else Some []
  end.

(** [var defaults = {...}] *)
Definition defaults : js_object :=
  [("callback", VBool false); ("center", VBool false); ("key", VBool false);
   ("options", VObj []); ("points", VArr []); ("responsive", VBool false);
   ("zoom", VBool false)]%string.

(** The defaults [insertPoint] merges a point over. *)
Definition point_defaults : js_object :=
  [("lat", VBool false); ("lng", VBool false); ("marker", VBool false);
   ("title", VBool false); ("infoWindow", VBool false)]%string.

(** ** Handles and objects *)

(** Objects are referred to by their index in the heap of their kind. *)

Abbreviation elem_id := nat (only parsing).
Abbreviation inst_id := nat (only parsing).
Abbreviation map_id := nat (only parsing).
Abbreviation bounds_id := nat (only parsing).
Abbreviation marker_id := nat (only parsing).
Abbreviation info_id := nat (only parsing).
Abbreviation timer_id := nat (only parsing).

(** A DOM element: its [style] attribute ([None] when the attribute is
    absent), its inner HTML, and the value jQuery's data store holds for it
    under the plugin's name. *)
Record element := {
  el_style : option string;
  el_html : string;
  el_data : option inst_id }.

(** A [Plugin] object.  [None] stands for [undefined]. *)
Record instance := {
  this_element : elem_id;
  this_options : js_object;
  _centered : bool;
  _zoomed : bool;
  _styles : option string;
  _content : option string;
  this_map : option map_id;
  this_bounds : option bounds_id }.

(** [new google.maps.LatLng({lat: .., lng: ..})] *)
Record latlng := { lat : jsval; lng : jsval }.

(** The two closures [zoom] registers for [bounds_changed]; each captures
    [_this] and the option value it re-applies. *)
Inductive listener :=
| CenterListener (this : inst_id) (location : jsval)
| ZoomListener (this : inst_id) (zoom : jsval).

(** A [google.maps.Map]: the container it was built on and its
    [bounds_changed] listeners in registration order. *)
Record map_obj := {
  map_element : elem_id;
  map_listeners : list listener }.

(** A [google.maps.Marker]; a click listener captures its info window and
    [_this]. *)
Record marker_obj := {
  marker_map : option map_id;
  marker_position : latlng;
  marker_icon : option string;
  marker_title : option jsval;
  marker_click : list (info_id * inst_id) }.

(** Calls that leave the plugin: methods of a map, an info window being
    opened, and the user's callback. *)
Inductive ext_call :=
| SetOptions (m : map_id) (o : jsval)
| FitBounds (m : map_id) (b : option bounds_id)
| SetCenter (m : map_id) (location : jsval)
| SetZoom (m : map_id) (zoom : jsval)
| InfoOpen (info : info_id) (m : option map_id) (marker : marker_id)
| UserCallback (f : nat) (this : inst_id).

(** The argument of [$.getScript]: the fixed part of the URL and the value
    of [options.key] appended to it. *)
Record script_request := { url_fixed : string; url_key : jsval }.

Definition api_url : string :=
  "//maps.googleapis.com/maps/api/js?v=3.31&callback=googleMapsInit&key=".

(** ** The world *)

(** Script loading: [google_defined] holds once the mapping API's script
    has run, which defines the global [google] and its [maps]; then
    [Plugin.loaded], [window.googleMaps] ([None] while undefined) and the
    script requests issued so far. *)
Record loader_state := {
  google_defined : bool;
  Plugin_loaded : bool;
  window_googleMaps : option (list inst_id);
  script_requests : list script_request }.

(** The page: the DOM, the heap of plugin instances, the handlers bound to
    the window for [resizeEvent] (each calls [zoom] on the instance it
    captured), [resizeTimer] ([None] for its initial [false]), the timers
    created by [setTimeout] ([true] while pending), and whether some other
    script of the page has defined a global [google] of its own, one that
    has no [maps]. *)
Record page_state := {
  elements : list element;
  instances : list instance;
  resized_handlers : list inst_id;
  resizeTimer : option timer_id;
  timeouts : list bool;
  google_without_maps : bool }.

(** The mapping API's objects and the trace of outgoing calls. *)
Record api_state := {
  maps : list map_obj;
  boundses : list (list latlng);
  markers : list marker_obj;
  infoWindows : list jsval;
  trace : list ext_call }.

Record world := {
  loader : loader_state;
  page : page_state;
  api : api_state }.

Definition on_loader (f : loader_state → loader_state) (w : world) : world :=
  {| loader := f (loader w); page := page w; api := api w |}.
Definition on_page (f : page_state → page_state) (w : world) : world :=
  {| loader := loader w; page := f (page w); api := api w |}.
Definition on_api (f : api_state → api_state) (w : world) : world :=
  {| loader := loader w; page := page w; api := f (api w) |}.

Definition with_google (b : bool) (l : loader_state) : loader_state :=
  {| google_defined := b; Plugin_loaded := Plugin_loaded l;
     window_googleMaps := window_googleMaps l;
     script_requests := script_requests l |}.
Definition with_loaded (b : bool) (l : loader_state) : loader_state :=
  {| google_defined := google_defined l; Plugin_loaded := b;
     window_googleMaps := window_googleMaps l;
     script_requests := script_requests l |}.
Definition with_googleMaps (q : option (list inst_id)) (l : loader_state)
  : loader_state :=
  {| google_defined := google_defined l; Plugin_loaded := Plugin_loaded l;
     window_googleMaps := q; script_requests := script_requests l |}.
Definition with_requests (r : list script_request) (l : loader_state)
  : loader_state :=
  {| google_defined := google_defined l; Plugin_loaded := Plugin_loaded l;
     window_googleMaps := window_googleMaps l; script_requests := r |}.

Definition with_elements (x : list element) (p : page_state) : page_state :=
  {| elements := x; instances := instances p;
     resized_handlers := resized_handlers p; resizeTimer := resizeTimer p;
     timeouts := timeouts p;
     google_without_maps := google_without_maps p |}.
Definition with_instances (x : list instance) (p : page_state) : page_state :=
  {| elements := elements p; instances := x;
     resized_handlers := resized_handlers p; resizeTimer := resizeTimer p;
     timeouts := timeouts p;
     google_without_maps := google_without_maps p |}.
Definition with_handlers (x : list inst_id) (p : page_state) : page_state :=
  {| elements := elements p; instances := instances p;
     resized_handlers := x; resizeTimer := resizeTimer p;
     timeouts := timeouts p;
     google_without_maps := google_without_maps p |}.
Definition with_resizeTimer (x : option timer_id) (p : page_state)
  : page_state :=
  {| elements := elements p; instances := instances p;
     resized_handlers := resized_handlers p; resizeTimer := x;
     timeouts := timeouts p;
     google_without_maps := google_without_maps p |}.
Definition with_timeouts (x : list bool) (p : page_state) : page_state :=
  {| elements := elements p; instances := instances p;
     resized_handlers := resized_handlers p; resizeTimer := resizeTimer p;
     timeouts := x; google_without_maps := google_without_maps p |}.

Definition with_google_without_maps (x : bool) (p : page_state)
  : page_state :=
  {| elements := elements p; instances := instances p;
     resized_handlers := resized_handlers p; resizeTimer := resizeTimer p;
     timeouts := timeouts p; google_without_maps := x |}.

Definition with_maps (x : list map_obj) (a : api_state) : api_state :=
  {| maps := x; boundses := boundses a; markers := markers a;
     infoWindows := infoWindows a; trace := trace a |}.
Definition with_boundses (x : list (list latlng)) (a : api_state) : api_state :=
  {| maps := maps a; boundses := x; markers := markers a;
     infoWindows := infoWindows a; trace := trace a |}.
Definition with_markers (x : list marker_obj) (a : api_state) : api_state :=
  {| maps := maps a; boundses := boundses a; markers := x;
     infoWindows := infoWindows a; trace := trace a |}.
Definition with_infoWindows (x : list jsval) (a : api_state) : api_state :=
  {| maps := maps a; boundses := boundses a; markers := markers a;
     infoWindows := x; trace := trace a |}.
Definition with_trace (x : list ext_call) (a : api_state) : api_state :=
  {| maps := maps a; boundses := boundses a; markers := markers a;
     infoWindows := infoWindows a; trace := x |}.

Definition with_map (m : option map_id) (i : instance) : instance :=
  {| this_element := this_element i; this_options := this_options i;
     _centered := _centered i; _zoomed := _zoomed i; _styles := _styles i;
     _content := _content i; this_map := m; this_bounds := this_bounds i |}.
Definition with_bounds (b : option bounds_id) (i : instance) : instance :=
  {| this_element := this_element i; this_options := this_options i;
     _centered := _centered i; _zoomed := _zoomed i; _styles := _styles i;
     _content := _content i; this_map := this_map i; this_bounds := b |}.
Definition with_centered (c : bool) (i : instance) : instance :=
  {| this_element := this_element i; this_options := this_options i;
     _centered := c; _zoomed := _zoomed i; _styles := _styles i;
     _content := _content i; this_map := this_map i;
     this_bounds := this_bounds i |}.
Definition with_zoomed (z : bool) (i : instance) : instance :=
  {| this_element := this_element i; this_options := this_options i;
     _centered := _centered i; _zoomed := z; _styles := _styles i;
     _content := _content i; this_map := this_map i;
     this_bounds := this_bounds i |}.
Definition with_saved (s c : option string) (i : instance) : instance :=
  {| this_element := this_element i; this_options := this_options i;
     _centered := _centered i; _zoomed := _zoomed i; _styles := s;
     _content := c; this_map := this_map i; this_bounds := this_bounds i |}.

Definition with_style (s : option string) (e : element) : element :=
  {| el_style := s; el_html := el_html e; el_data := el_data e |}.
Definition with_html (h : string) (e : element) : element :=
  {| el_style := el_style e; el_html := h; el_data := el_data e |}.
Definition with_data (d : option inst_id) (e : element) : element :=
  {| el_style := el_style e; el_html := el_html e; el_data := d |}.

Definition with_listeners (l : list listener) (m : map_obj) : map_obj :=
  {| map_element := map_element m; map_listeners := l |}.

(** ** Effects: state that survives an exception *)

(** The exceptions: the two the plugin's own code can raise, whatever a
    function of the page throws, and the mark of a reference to nothing. *)
Inductive js_error := ReferenceError | TypeError | Thrown | Dangling.

Inductive outcome (A : Type) :=
| Ret (a : A)
| Throw (e : js_error).
Arguments Ret {A} a.
Arguments Throw {A} e.

(** A computation returns or throws, and leaves a world either way: what a
    function did before it threw stays done. *)
Definition M (A : Type) : Type := world → outcome A * world.

Definition ret {A} (a : A) : M A := λ w, (Ret a, w).
Definition throw {A} (e : js_error) : M A := λ w, (Throw e, w).
Definition bind {A B} (m : M A) (k : A → M B) : M B :=
  λ w, match m w with
       | (Ret a, w') => k a w'
       | (Throw e, w') => (Throw e, w')
       end.
Definition gets {A} (f : world → A) : M A := λ w, (Ret (f w), w).
Definition modify (f : world → world) : M unit := λ w, (Ret tt, f w).

#[global] Instance M_ret : MRet M := @ret.
#[global] Instance M_bind : MBind M := λ A B k m, bind m k.

(** [when c m]: [if (c) { m }] *)
Definition when (c : bool) (m : M unit) : M unit := if c then m else ret tt.

(** A loop over the items of a list, as [$.each] and [.each] run it; no
    callback of the plugin returns [false], so the loop never breaks. *)
Fixpoint each {A} (l : list A) (f : A → M unit) : M unit :=
  match l with
  | [] => ret tt
  | x :: l' => f x ;; each l' f
  end.

(** The world an event handler leaves; an exception that escapes it is
    reported by the browser and the page lives on. *)
Definition exec {A} (m : M A) (w : world) : world := (m w).2.

(** *** Instances and elements *)

(** Following a reference.  A reference to an object that was never
    allocated does not exist in JavaScript: [Dangling] marks it. *)
Definition deref_instance (i : inst_id) : M instance :=
  λ w, match instances (page w) !! i with
       | Some self => (Ret self, w)
       | None => (Throw Dangling, w)
       end.

Definition deref_element (e : elem_id) : M element :=
  λ w, match elements (page w) !! e with
       | Some el => (Ret el, w)
       | None => (Throw Dangling, w)
       end.

Definition update_instance (i : inst_id) (f : instance → instance) : M unit :=
  modify (on_page (λ p, with_instances (alter f i (instances p)) p)).

Definition update_element (e : elem_id) (f : element → element) : M unit :=
  modify (on_page (λ p, with_elements (alter f e (elements p)) p)).

Definition alloc_instance (self : instance) : M inst_id :=
  λ w, (Ret (length (instances (page w))),
        on_page (λ p, with_instances (instances p ++ [self]) p) w).

(** *** jQuery *)

(** [$(e).attr('style')]: [undefined] when the attribute is absent. *)
Definition jq_attr_style (e : elem_id) : M (option string) :=
  el ← deref_element e; ret (el_style el).

(** [$(e).html()] *)
Definition jq_html (e : elem_id) : M string :=
  el ← deref_element e; ret (el_html el).

(** [$(e).attr('style', v)].  jQuery reads a call whose value is
    [undefined] as a getter: nothing is written. *)
Definition jq_set_attr_style (e : elem_id) (v : option string) : M unit :=
  match v with
  | Some s => _ ← deref_element e; update_element e (with_style (Some s))
  | None => ret tt
  end.

(** [$(e).html(v)], with the same reading of [undefined]. *)
Definition jq_set_html (e : elem_id) (v : option string) : M unit :=
  match v with
  | Some s => _ ← deref_element e; update_element e (with_html s)
  | None => ret tt
  end.

(** [$.data(e, name)], [$.data(e, name, i)] and [$.removeData(e, name)] *)
Definition jq_data (e : elem_id) : M (option inst_id) :=
  el ← deref_element e; ret (el_data el).
Definition jq_set_data (e : elem_id) (i : inst_id) : M unit :=
  update_element e (with_data (Some i)).
Definition jq_removeData (e : elem_id) : M unit :=
  update_element e (with_data None).

(** [$.getScript(url)] *)
Definition jq_getScript (r : script_request) : M unit :=
  modify (on_loader (λ l, with_requests (script_requests l ++ [r]) l)).

(** [$(window).on(resizeEvent, function () { _this.zoom(); })] *)
Definition window_on_resized (this : inst_id) : M unit :=
  modify (on_page (λ p, with_handlers (resized_handlers p ++ [this]) p)).

(** *** The mapping API *)

(** [typeof google !== 'undefined'] and [typeof google.maps !== 'undefined'],
    the latter evaluated only where the former holds. *)
Definition typeof_google (w : world) : bool :=
  google_defined (loader w) || google_without_maps (page w).
Definition typeof_google_maps (w : world) : bool :=
  google_defined (loader w).
Arguments typeof_google : simpl never.
Arguments typeof_google_maps : simpl never.

(** Evaluating [google.maps.X]: a [ReferenceError] while there is no global
    [google], a [TypeError] while [google] has no [maps]. *)
Definition google_maps : M unit :=
  λ w, if negb (typeof_google w) then (Throw ReferenceError, w)
       else if negb (typeof_google_maps w) then (Throw TypeError, w)
       else (Ret tt, w).

Definition log (c : ext_call) : M unit :=
  modify (on_api (λ a, with_trace (trace a ++ [c]) a)).

(** [new google.maps.Map(element)] *)
Definition new_Map (e : elem_id) : M map_id :=
  google_maps;;
  ((λ w, (Ret (length (maps (api w))),
        on_api (λ a, with_maps
          (maps a ++ [{| map_element := e; map_listeners := [] |}]) a) w)) : M map_id).

(** [new google.maps.LatLngBounds()] *)
Definition new_LatLngBounds : M bounds_id :=
  google_maps;;
  ((λ w, (Ret (length (boundses (api w))),
        on_api (λ a, with_boundses (boundses a ++ [[]]) a) w)) : M bounds_id).

(** [new google.maps.LatLng({lat: .., lng: ..})] *)
Definition new_LatLng (la ln : jsval) : M latlng :=
  google_maps;; ret {| lat := la; lng := ln |}.

(** [new google.maps.Marker({map: .., position: ..})] *)
Definition new_Marker (m : option map_id) (pos : latlng) : M marker_id :=
  google_maps;;
  ((λ w, (Ret (length (markers (api w))),
        on_api (λ a, with_markers
          (markers a ++ [{| marker_map := m; marker_position := pos;
                            marker_icon := None; marker_title := None;
                            marker_click := [] |}]) a) w)) : M marker_id).

(** [new google.maps.InfoWindow({content: ..})] *)
Definition new_InfoWindow (content : jsval) : M info_id :=
  google_maps;;
  ((λ w, (Ret (length (infoWindows (api w))),
        on_api (λ a, with_infoWindows (infoWindows a ++ [content]) a) w)) : M info_id).

(** [bounds.extend(location)] *)
Definition bounds_extend (b : bounds_id) (location : latlng) : M unit :=
  modify (on_api (λ a,
    with_boundses (alter (λ ps, ps ++ [location]) b (boundses a)) a)).

Definition update_marker (k : marker_id) (f : marker_obj → marker_obj)
  : M unit :=
  modify (on_api (λ a, with_markers (alter f k (markers a)) a)).

(** [marker.setIcon(url)], [marker.setTitle(title)] and
    [marker.addListener('click', function () { info.open(_this.map, marker); })] *)
Definition marker_setIcon (k : marker_id) (url : string) : M unit :=
  update_marker k (λ mk,
    {| marker_map := marker_map mk; marker_position := marker_position mk;
       marker_icon := Some url; marker_title := marker_title mk;
       marker_click := marker_click mk |}).
Definition marker_setTitle (k : marker_id) (title : jsval) : M unit :=
  update_marker k (λ mk,
    {| marker_map := marker_map mk; marker_position := marker_position mk;
       marker_icon := marker_icon mk; marker_title := Some title;
       marker_click := marker_click mk |}).
Definition marker_addListener (k : marker_id) (info : info_id)
    (this : inst_id) : M unit :=
  update_marker k (λ mk,
    {| marker_map := marker_map mk; marker_position := marker_position mk;
       marker_icon := marker_icon mk; marker_title := marker_title mk;
       marker_click := marker_click mk ++ [(info, this)] |}).

(** [map.addListener('bounds_changed', l)] *)
Definition map_addListener (m : map_id) (l : listener) : M unit :=
  modify (on_api (λ a, with_maps
    (alter (λ mo, with_listeners (map_listeners mo ++ [l]) mo) m (maps a)) a)).

(** [_this.map] and [_this.bounds] as the receiver of a method call: a
    [TypeError] while the property is [undefined]. *)
Definition the_map (this : inst_id) : M map_id :=
  self ← deref_instance this;
  match this_map self with Some m => ret m | None => throw TypeError end.
Definition the_bounds (this : inst_id) : M bounds_id :=
  self ← deref_instance this;
  match this_bounds self with Some b => ret b | None => throw TypeError end.

(** Calling [f(this)]: a [TypeError] when [f] is not callable; when it is
    a function, the call is recorded in the trace and returns or throws as
    the function does. *)
Definition call_function (f : jsval) (this : inst_id) : M unit :=
  match f with
  | VFun c Returns => log (UserCallback c this)
  | VFun c Throws => log (UserCallback c this);; throw Thrown
  | _ => throw TypeError
  end.

(** [$.each(v, f)] *)
Definition jq_each (v : jsval) (f : jsval → M unit) : M unit :=
  match each_items v with
  | Some items => each items f
  | None => throw TypeError
  end.

(** ** The plugin *)

Module Plugin.

(** [Plugin.prototype.insertPoint] *)
Definition insertPoint (this : inst_id) (options : jsval) : M unit :=
  let point := jq_extend point_defaults options in
  if negb (truthy (obj_get "lat" point)) || negb (truthy (obj_get "lng" point))
  then ret tt
  else
    location ← new_LatLng (obj_get "lat" point) (obj_get "lng" point);
    b ← the_bounds this;
    bounds_extend b location;;
    if negb (truthy (obj_get "marker" point)) then ret tt
    else
      self ← deref_instance this;
      marker ← new_Marker (this_map self) location;
      match obj_get "marker" point with
      | VStr url => marker_setIcon marker url
      | _ => ret tt
      end;;
      when (truthy (obj_get "title" point))
        (marker_setTitle marker (obj_get "title" point));;
      when (truthy (obj_get "infoWindow" point))
        (info ← new_InfoWindow (obj_get "infoWindow" point);
         marker_addListener marker info this).

(** [Plugin.prototype.zoom] *)
Definition zoom (this : inst_id) : M unit :=
  self ← deref_instance this;
  let location := obj_get "center" (this_options self) in
  let zoom := obj_get "zoom" (this_options self) in
  m ← the_map this;
  log (FitBounds m (this_bounds self));;
  when (truthy location && defined (prop location "lat")
        && defined (prop location "lng"))
    (log (SetCenter m location);;
     map_addListener m (CenterListener this location));;
  when (truthy zoom)
    (log (SetZoom m zoom);;
     map_addListener m (ZoomListener this zoom)).

(** The statements of [Plugin.prototype.draw] that come before its call
    of [zoom]: the map and bounds are created, the native options applied
    and the points inserted. *)
Definition draw_begin (this : inst_id) : M unit :=
  self ← deref_instance this;
  m ← new_Map (this_element self);
  update_instance this (with_map (Some m));;
  b ← new_LatLngBounds;
  update_instance this (with_bounds (Some b));;
  log (SetOptions m (obj_get "options" (this_options self)));;
  jq_each (obj_get "points" (this_options self)) (insertPoint this).

(** The statements after it: the resize subscription and the callback. *)
Definition draw_end (this : inst_id) : M unit :=
  self ← deref_instance this;
  when (truthy (obj_get "responsive" (this_options self)))
    (window_on_resized this);;
  when (truthy (obj_get "callback" (this_options self)))
    (call_function (obj_get "callback" (this_options self)) this).

(** [Plugin.prototype.draw] *)
Definition draw (this : inst_id) : M unit :=
  draw_begin this;; zoom this;; draw_end this.

(** [Plugin.prototype.load] *)
Definition load (this : inst_id) : M unit :=
  ready ← gets (λ w, typeof_google w && typeof_google_maps w);
  if ready : bool then
    modify (on_loader (with_loaded true));;
    draw this
  else
    modify (on_loader (λ l,
      match window_googleMaps l with
      | None => with_googleMaps (Some []) l
      | Some _ => l
      end));;
    modify (on_loader (λ l,
      with_googleMaps ((.++ [this]) <$> window_googleMaps l) l));;
    loaded ← gets (λ w, Plugin_loaded (loader w));
    if loaded : bool then ret tt
    else
      self ← deref_instance this;
      jq_getScript {| url_fixed := api_url;
                      url_key := obj_get "key" (this_options self) |};;
      modify (on_loader (with_loaded true)).

(** [Plugin.prototype.init] *)
Definition init (this : inst_id) : M unit :=
  self ← deref_instance this;
  styles ← jq_attr_style (this_element self);
  content ← jq_html (this_element self);
  update_instance this (with_saved styles (Some content));;
  load this.

(** [new Plugin(element, options)] *)
Definition new (element : elem_id) (options : jsval) : M inst_id :=
  this ← alloc_instance
    {| this_element := element;
       this_options := jq_extend (jq_extend [] (VObj defaults)) options;
       _centered := false; _zoomed := false;
       _styles := None; _content := None;
       this_map := None; this_bounds := None |};
  init this;;
  ret this.

(** [Plugin.prototype.remove] *)
Definition remove (this : inst_id) : M unit :=
  self ← deref_instance this;
  jq_set_html (this_element self) (_content self);;
  jq_set_attr_style (this_element self) (_styles self).

(** [Plugin.prototype.destroy] *)
Definition destroy (this : inst_id) : M unit :=
  remove this;;
  self ← deref_instance this;
  jq_removeData (this_element self).

End Plugin.

(** ** The jQuery method [$.fn.googleMaps] *)

(** A jQuery collection: its elements, its own [options] property and the
    value the data store holds for the collection object itself.  A
    collection that a selector has just built has neither. *)
Record jquery := {
  jq_elems : list elem_id;
  jq_options : jsval;
  jq_own_data : option inst_id }.

Definition selected (es : list elem_id) : jquery :=
  {| jq_elems := es; jq_options := VUndefined; jq_own_data := None |}.

(** What the method returns: one value read from the data store, an array
    of them, or the collection. *)
Inductive returned :=
| RData (d : option inst_id)
| RArray (ds : list (option inst_id))
| RCollection (c : jquery).

Definition is_instance_word (v : jsval) : bool :=
  match v with VStr s => String.eqb s "instance" | _ => false end.

(** The callback of the second [.each]: a named command on the element's
    instance, or the construction of one. *)
Definition apply_to (options : jsval) (e : elem_id) : M unit :=
  instance ← jq_data e;
  match options with
  | VStr command =>
      match instance with
      | None => ret tt
      | Some i =>
          if String.eqb command "redraw" then Plugin.draw i
          else if String.eqb command "remove" then Plugin.remove i
          else if String.eqb command "destroy" then Plugin.destroy i
          else ret tt
      end
  | _ =>
      match instance with
      | None => i ← Plugin.new e options; jq_set_data e i
      | Some _ => ret tt
      end
  end.

(** [$.fn[name] = function (options) {...}], called on the collection
    [_this]. *)
Definition fn_googleMaps (_this : jquery) (options : jsval) : M returned :=
  if is_instance_word (jq_options _this) then
    let instances := (λ _, jq_own_data _this) <$> jq_elems _this in
    match instances with
    | [d] => ret (RData d)
    | _ => ret (RArray instances)
    end
  else
    each (jq_elems _this) (apply_to options);;
    ret (RCollection _this).

(** ** Events *)

(** [window.googleMapsInit] *)
Definition googleMapsInit : M unit :=
  pending ← gets (λ w, window_googleMaps (loader w));
  match pending with
  | None => ret tt
  | Some l => each l Plugin.draw
  end.

(** The API script has run: [google] and [google.maps] are defined and the
    script calls the callback named in its URL. *)
Definition script_loaded : M unit :=
  modify (on_loader (with_google true));;
  googleMapsInit.

(** The body of a [bounds_changed] listener. *)
Definition run_listener (l : listener) : M unit :=
  match l with
  | CenterListener this location =>
      self ← deref_instance this;
      if _centered self then ret tt
      else
        m ← the_map this;
        log (SetCenter m location);;
        update_instance this (with_centered true)
  | ZoomListener this zoom =>
      self ← deref_instance this;
      if _zoomed self then ret tt
      else
        m ← the_map this;
        log (SetZoom m zoom);;
        update_instance this (with_zoomed true)
  end.

(** The map [m] notifies [bounds_changed]: its listeners run in the order
    they were registered. *)
Definition bounds_changed (m : map_id) : M unit :=
  ls ← gets (λ w, from_option map_listeners [] (maps (api w) !! m));
  each ls run_listener.

(** The marker [k] is clicked. *)
Definition marker_clicked (k : marker_id) : M unit :=
  ls ← gets (λ w, from_option marker_click [] (markers (api w) !! k));
  each ls (λ '(info, this),
    self ← deref_instance this;
    log (InfoOpen info (this_map self) k)).

(** [$(window).trigger(resizeEvent)] *)
Definition trigger_resized : M unit :=
  hs ← gets (λ w, resized_handlers (page w));
  each hs Plugin.zoom.

(** The handler of the window's native [resize]: the pending timer is
    cleared and a new one started. *)
Definition window_resize : M unit :=
  modify (on_page (λ p,
    match resizeTimer p with
    | Some t => with_timeouts (<[t := false]> (timeouts p)) p
    | None => p
    end));;
  modify (on_page (λ p,
    with_resizeTimer (Some (length (timeouts p)))
      (with_timeouts (timeouts p ++ [true]) p))).

(** The timer [t] expires: if it was not cleared, its callback triggers
    [resizeEvent]. *)
Definition timer_fires (t : timer_id) : M unit :=
  pending ← gets (λ w, timeouts (page w) !! t);
  match pending with
  | Some true =>
      modify (on_page (λ p, with_timeouts (<[t := false]> (timeouts p)) p));;
      trigger_resized
  | _ => ret tt
  end.

(** Whatever else writes the container: the map the API renders into it,
    or another script of the page. *)
Definition dom_write (e : elem_id) (style : option string) (html : string)
  : M unit :=
  update_element e (λ el, with_html html (with_style style el)).

(** Another script of the page defines a global [google] of its own. *)
Definition other_script : M unit :=
  modify (on_page (with_google_without_maps true)).

Inductive event :=
| Call (c : jquery) (options : jsval)
| ScriptLoaded
| BoundsChanged (m : map_id)
| MarkerClicked (k : marker_id)
| WindowResize
| TimerFires (t : timer_id)
| DomWrite (e : elem_id) (style : option string) (html : string)
| OtherScript.

Definition step (w : world) (ev : event) : world :=
  match ev with
  | Call c options => exec (fn_googleMaps c options) w
  | ScriptLoaded => exec script_loaded w
  | BoundsChanged m => exec (bounds_changed m) w
  | MarkerClicked k => exec (marker_clicked k) w
  | WindowResize => exec window_resize w
  | TimerFires t => exec (timer_fires t) w
  | DomWrite e style html => exec (dom_write e style html) w
  | OtherScript => exec other_script w
  end.

Definition run (w : world) (evs : list event) : world := foldl step w evs.

(** The page once the plugin's script has been evaluated: no [google],
    nothing loaded, nothing queued, no instance, no timer. *)
Definition start (dom : list element) : world :=
  {| loader := {| google_defined := false; Plugin_loaded := false;
                  window_googleMaps := None; script_requests := [] |};
     page := {| elements := dom; instances := []; resized_handlers := [];
                resizeTimer := None; timeouts := [];
                google_without_maps := false |};
     api := {| maps := []; boundses := []; markers := []; infoWindows := [];
               trace := [] |} |}.

(** * Reasoning about computations *)

Lemma run_bind {A B} (m : M A) (k : A → M B) (w : world) :
  (m ≫= k) w =
  match m w with
  | (Ret a, w') => k a w'
  | (Throw e, w') => (Throw e, w')
  end.
Proof. reflexivity. Qed.

Lemma run_bind_ret {A B} (m : M A) (k : A → M B) w a w' :
  m w = (Ret a, w') → (m ≫= k) w = k a w'.
Proof. intros H. by rewrite run_bind, H. Qed.

Lemma run_bind_throw {A B} (m : M A) (k : A → M B) w e w' :
  m w = (Throw e, w') → (m ≫= k) w = (Throw e, w').
Proof. intros H. by rewrite run_bind, H. Qed.

Lemma run_deref_instance w i self :
  instances (page w) !! i = Some self → deref_instance i w = (Ret self, w).
Proof. unfold deref_instance. by intros ->. Qed.

Lemma run_deref_element w e el :
  elements (page w) !! e = Some el → deref_element e w = (Ret el, w).
Proof. unfold deref_element. by intros ->. Qed.

Lemma ready_google_defined w :
  typeof_google w && typeof_google_maps w = google_defined (loader w).
Proof.
  unfold typeof_google, typeof_google_maps.
  by destruct (google_defined _), (google_without_maps _).
Qed.

Lemma run_google w :
  google_defined (loader w) = true → google_maps w = (Ret tt, w).
Proof. unfold google_maps, typeof_google, typeof_google_maps. by intros ->. Qed.

(** While the API is missing, [google.maps.X] throws, one error or the
    other. *)
Definition missing_api (w : world) : js_error :=
  if google_without_maps (page w) then TypeError else ReferenceError.

Lemma run_google_missing w :
  google_defined (loader w) = false →
  google_maps w = (Throw (missing_api w), w).
Proof.
  unfold google_maps, typeof_google, typeof_google_maps, missing_api.
  intros ->. by destruct (google_without_maps _).
Qed.

(** ** Relations every step of a computation respects *)

Section preserves.
Context (R : relation world) `{!PreOrder R}.

(** [m] takes every world to an [R]-related one, whether it returns or
    throws. *)
Definition preserves {A} (m : M A) : Prop := ∀ w, R w (m w).2.

Lemma preserves_ret {A} (a : A) : preserves (ret a).
Proof. intros w. simpl. reflexivity. Qed.

Lemma preserves_mret {A} (a : A) : preserves (mret a).
Proof. apply preserves_ret. Qed.

Lemma preserves_throw {A} e : preserves (@throw A e).
Proof. intros w. simpl. reflexivity. Qed.

Lemma preserves_gets {A} (f : world → A) : preserves (gets f).
Proof. intros w. simpl. reflexivity. Qed.

Lemma preserves_modify f : (∀ w, R w (f w)) → preserves (modify f).
Proof. intros H w. apply H. Qed.

Lemma preserves_still {A} (m : M A) : (∀ w, (m w).2 = w) → preserves m.
Proof. intros H w. rewrite H. reflexivity. Qed.

Lemma preserves_bind {A B} (m : M A) (k : A → M B) :
  preserves m → (∀ a, preserves (k a)) → preserves (m ≫= k).
Proof.
  intros Hm Hk w. rewrite run_bind.
  specialize (Hm w). destruct (m w) as [[a|e] w']; simpl in *; [|done].
  etrans; [exact Hm|apply Hk].
Qed.

Lemma preserves_when c (m : M unit) : preserves m → preserves (when c m).
Proof. destruct c; simpl; [done|intros _; apply preserves_ret]. Qed.

Lemma preserves_each {A} (l : list A) (f : A → M unit) :
  (∀ x, preserves (f x)) → preserves (each l f).
Proof.
  intros Hf. induction l as [|x l IH]; simpl.
  - apply preserves_ret.
  - apply preserves_bind; [apply Hf|done].
Qed.

Lemma preserves_jq_each v (f : jsval → M unit) :
  (∀ x, preserves (f x)) → preserves (jq_each v f).
Proof.
  intros Hf. unfold jq_each. destruct (each_items v).
  - by apply preserves_each.
  - apply preserves_throw.
Qed.

Lemma preserves_deref_instance i : preserves (deref_instance i).
Proof.
  apply preserves_still. intros w. unfold deref_instance.
  by destruct (_ !! _).
Qed.

Lemma preserves_deref_element e : preserves (deref_element e).
Proof.
  apply preserves_still. intros w. unfold deref_element.
  by destruct (_ !! _).
Qed.

Lemma preserves_google : preserves google_maps.
Proof.
  apply preserves_still. intros w. unfold google_maps.
  by destruct (typeof_google w), (typeof_google_maps w).
Qed.

Lemma preserves_the_map this : preserves (the_map this).
Proof.
  apply preserves_bind; [apply preserves_deref_instance|].
  intros self. destruct (this_map self);
    [apply preserves_ret|apply preserves_throw].
Qed.

Lemma preserves_the_bounds this : preserves (the_bounds this).
Proof.
  apply preserves_bind; [apply preserves_deref_instance|].
  intros self. destruct (this_bounds self);
    [apply preserves_ret|apply preserves_throw].
Qed.

Lemma preserves_exec {A} (m : M A) w : preserves m → R w (exec m w).
Proof. intros H. apply H. Qed.
End preserves.

(** Two worlds agree on an observation [f]. *)
Definition agree {X} (f : world → X) : relation world := λ w w', f w' = f w.

#[global] Instance agree_preorder {X} (f : world → X) : PreOrder (agree f).
Proof. split; [by intros w|]. intros w1 w2 w3. unfold agree. congruence. Qed.

(** Structural steps of a proof of [preserves R m]; what is left are the
    primitive operations. *)
Ltac preserves_rule lem := apply lem; try apply _.

Ltac preserves_step :=
  lazymatch goal with
  | |- preserves _ (_ ≫= _) => preserves_rule preserves_bind; [|intros ?]
  | |- preserves _ (ret _) => preserves_rule preserves_ret
  | |- preserves _ (mret _) => preserves_rule preserves_mret
  | |- preserves _ (throw _) => preserves_rule preserves_throw
  | |- preserves _ (gets _) => preserves_rule preserves_gets
  | |- preserves _ (when _ _) => preserves_rule preserves_when
  | |- preserves _ (each _ _) => preserves_rule preserves_each; intros ?
  | |- preserves _ (jq_each _ _) => preserves_rule preserves_jq_each; intros ?
  | |- preserves _ (deref_instance _) => preserves_rule preserves_deref_instance
  | |- preserves _ (deref_element _) => preserves_rule preserves_deref_element
  | |- preserves _ google_maps => preserves_rule preserves_google
  | |- preserves _ (the_map _) => preserves_rule preserves_the_map
  | |- preserves _ (the_bounds _) => preserves_rule preserves_the_bounds
  | |- preserves _ (match ?x with _ => _ end) => destruct x
  end.

(** A primitive that rewrites one part of the world leaves the
    observations of the other parts alone. *)
Ltac preserves_prim :=
  lazymatch goal with
  | |- preserves (agree _) _ => intros ?; unfold agree; reflexivity
  end.

Ltac preserves_auto := repeat preserves_step; try preserves_prim.

(** ** What the methods leave alone *)

(** The flags of the instances, in heap order. *)
Definition flags (w : world) : list (bool * bool) :=
  (λ self, (_centered self, _zoomed self)) <$> instances (page w).

Lemma flags_update w this f :
  (∀ self, _centered (f self) = _centered self) →
  (∀ self, _zoomed (f self) = _zoomed self) →
  flags (exec (update_instance this f) w) = flags w.
Proof.
  intros Hc Hz. unfold flags. simpl.
  rewrite (list_fmap_alter _ _ id).
  - by apply list_alter_id.
  - apply Forall_forall. intros self _. simpl. by rewrite Hc, Hz.
Qed.

Lemma update_instance_flags this f :
  (∀ self, _centered (f self) = _centered self) →
  (∀ self, _zoomed (f self) = _zoomed self) →
  preserves (agree flags) (update_instance this f).
Proof. intros Hc Hz w. by apply flags_update. Qed.

Section insertPoint.
Context {X : Type} (f : world → X).
(** An observation that does not look at the bounds, the markers or the
    info windows. *)
Context (Hb : ∀ g w, f (on_api (λ a, with_boundses (g a) a) w) = f w).
Context (Hm : ∀ g w, f (on_api (λ a, with_markers (g a) a) w) = f w).
Context (Hi : ∀ g w, f (on_api (λ a, with_infoWindows (g a) a) w) = f w).

Lemma insertPoint_preserves this options :
  preserves (agree f) (Plugin.insertPoint this options).
Proof.
  unfold Plugin.insertPoint. cbv zeta.
  destruct (_ || _); [preserves_auto|].
  unfold new_LatLng, bounds_extend, new_Marker, new_InfoWindow,
    marker_setIcon, marker_setTitle, marker_addListener, update_marker.
  repeat preserves_step;
    try (intros w; unfold agree; simpl; first [apply Hb|apply Hm|apply Hi]).
Qed.
End insertPoint.

Ltac unfold_prims :=
  unfold log, update_instance, update_element, window_on_resized,
    map_addListener, bounds_extend, new_LatLng, new_Map, new_LatLngBounds,
    new_Marker, new_InfoWindow, marker_setIcon, marker_setTitle,
    marker_addListener, update_marker, call_function, jq_set_data,
    jq_removeData, jq_data, jq_html, jq_attr_style, jq_set_html,
    jq_set_attr_style, jq_getScript, alloc_instance.

(** [zoom] writes nothing but the mapping API's objects and the trace. *)
Section api_only.
Context {X : Type} (f : world → X).
Context (Ha : ∀ g w, f (on_api g w) = f w).

Lemma zoom_api_only this : preserves (agree f) (Plugin.zoom this).
Proof.
  unfold Plugin.zoom. cbv zeta. unfold_prims. repeat preserves_step;
    intros ?; unfold agree; simpl; first [apply Ha|reflexivity].
Qed.

Lemma insertPoint_api_only this options :
  preserves (agree f) (Plugin.insertPoint this options).
Proof. apply insertPoint_preserves; intros; apply Ha. Qed.
End api_only.

(** Observations of the script-loading state, and any other that looks
    neither at the page nor at the mapping API's objects, are left alone by
    everything but [load] and the arrival of the script. *)
Section blind.
Context {X : Type} (f : world → X).
Context (Hp : ∀ g w, f (on_page g w) = f w).
Context (Ha : ∀ g w, f (on_api g w) = f w).

Local Ltac leaf :=
  intros ?; unfold agree; simpl; first [apply Hp|apply Ha|reflexivity].
Local Ltac go := unfold_prims; repeat preserves_step; try leaf.

Lemma zoom_blind this : preserves (agree f) (Plugin.zoom this).
Proof. by apply zoom_api_only. Qed.

Lemma draw_begin_blind this : preserves (agree f) (Plugin.draw_begin this).
Proof.
  unfold Plugin.draw_begin. go.
  apply insertPoint_preserves; intros; apply Ha.
Qed.

Lemma draw_end_blind this : preserves (agree f) (Plugin.draw_end this).
Proof. unfold Plugin.draw_end. go. Qed.

Lemma draw_blind this : preserves (agree f) (Plugin.draw this).
Proof.
  unfold Plugin.draw. go;
    auto using draw_begin_blind, zoom_blind, draw_end_blind.
Qed.

Lemma remove_blind this : preserves (agree f) (Plugin.remove this).
Proof. unfold Plugin.remove. go. Qed.

Lemma destroy_blind this : preserves (agree f) (Plugin.destroy this).
Proof. unfold Plugin.destroy. go. apply remove_blind. Qed.

Lemma run_listener_blind l : preserves (agree f) (run_listener l).
Proof. unfold run_listener. go. Qed.

Lemma bounds_changed_blind m : preserves (agree f) (bounds_changed m).
Proof. unfold bounds_changed. go. apply run_listener_blind. Qed.

Lemma marker_clicked_blind k : preserves (agree f) (marker_clicked k).
Proof. unfold marker_clicked. go. Qed.

Lemma trigger_resized_blind : preserves (agree f) trigger_resized.
Proof. unfold trigger_resized. go. apply zoom_blind. Qed.

Lemma window_resize_blind : preserves (agree f) window_resize.
Proof. unfold window_resize. go. Qed.

Lemma timer_fires_blind t : preserves (agree f) (timer_fires t).
Proof. unfold timer_fires. go. apply trigger_resized_blind. Qed.

Lemma dom_write_blind e style html :
  preserves (agree f) (dom_write e style html).
Proof. unfold dom_write. go. Qed.

Lemma other_script_blind : preserves (agree f) other_script.
Proof. unfold other_script. go. Qed.
End blind.

(** ** Objects and [$.extend] *)

Lemma obj_lookup_set_eq k v o : obj_lookup k (obj_set k v o) = Some v.
Proof.
  induction o as [|[k' v'] o IH]; simpl.
  - by rewrite String.eqb_refl.
  - destruct (String.eqb_spec k k') as [->|Hne]; simpl.
    + by rewrite String.eqb_refl.
    + destruct (String.eqb_spec k k'); [done|]. exact IH.
Qed.

Lemma obj_lookup_set_ne k k' v o :
  k ≠ k' → obj_lookup k (obj_set k' v o) = obj_lookup k o.
Proof.
  intros Hne. induction o as [|[k1 v1] o IH]; simpl.
  - by destruct (String.eqb_spec k k').
  - destruct (String.eqb_spec k' k1) as [->|Hne1]; simpl.
    + by destruct (String.eqb_spec k k1).
    + destruct (String.eqb_spec k k1); [done|]. exact IH.
Qed.

Lemma obj_get_set_eq k v o : obj_get k (obj_set k v o) = v.
Proof. unfold obj_get. by rewrite obj_lookup_set_eq. Qed.

Lemma obj_get_set_ne k k' v o :
  k ≠ k' → obj_get k (obj_set k' v o) = obj_get k o.
Proof. intros. unfold obj_get. by rewrite obj_lookup_set_ne. Qed.

(** One round of the copying loop of [$.extend]. *)
Definition extend_step (o : js_object) (t : js_object) (kv : string * jsval)
  : js_object :=
  match obj_get kv.1 o with
  | VUndefined => t
  | copy => obj_set kv.1 copy t
  end.

Lemma extend_step_get o t kv k :
  obj_get k (extend_step o t kv) =
  if String.eqb k kv.1 && defined (obj_get k o) then obj_get k o
  else obj_get k t.
Proof.
  unfold extend_step. destruct (String.eqb_spec k kv.1) as [->|Hne]; simpl.
  - destruct (obj_get kv.1 o) eqn:E; simpl; by rewrite ?obj_get_set_eq.
  - destruct (obj_get kv.1 o); by rewrite ?obj_get_set_ne.
Qed.

Lemma extend_fold_get o l t k :
  obj_get k (fold_left (extend_step o) l t) =
  match obj_lookup k l with
  | Some _ => if defined (obj_get k o) then obj_get k o else obj_get k t
  | None => obj_get k t
  end.
Proof.
  revert t. induction l as [|[k1 v1] l IH]; intros t; simpl; [done|].
  rewrite IH, extend_step_get. simpl.
  destruct (String.eqb_spec k k1) as [->|Hne]; simpl.
  - destruct (defined (obj_get k1 o)); by destruct (obj_lookup k1 l).
  - done.
Qed.

(** After [$.extend(target, src)] a property reads as it does in [src]
    when [src] defines it, and as it did in [target] otherwise. *)
Lemma jq_extend_get t src k :
  obj_get k (jq_extend t src) =
  if defined (prop src k) then prop src k else obj_get k t.
Proof.
  destruct src; simpl; try done.
  change (obj_get k (fold_left (extend_step fields) fields t) =
          if defined (obj_get k fields) then obj_get k fields else obj_get k t).
  rewrite extend_fold_get.
  destruct (obj_lookup k fields) eqn:E; [done|].
  unfold obj_get at 2 3. by rewrite E.
Qed.

(** A property of the merged point is falsy exactly when the caller's is:
    the defaults are all [false]. *)
Lemma point_truthy options k :
  truthy (obj_get k point_defaults) = false →
  truthy (obj_get k (jq_extend point_defaults options)) =
  truthy (prop options k).
Proof.
  intros Hd. rewrite jq_extend_get.
  destruct (prop options k) eqn:E; simpl; try done.
Qed.

(** * The claims *)

(** ** Dropping a point without coordinates *)

(** C7. A point whose [lat] or [lng] is falsy is dropped: [insertPoint]
    returns normally and the world (bounds, markers and all the rest) is the
    one it was called in. *)
Theorem insertPoint_drops_invalid_point (w : world) (this : inst_id)
    (options : jsval) :
  truthy (prop options "lat") = false ∨ truthy (prop options "lng") = false →
  Plugin.insertPoint this options w = (Ret tt, w).
Proof.
  intros H. unfold Plugin.insertPoint. cbv zeta.
  rewrite !point_truthy by reflexivity.
  by destruct H as [-> | ->]; rewrite ?orb_true_r.
Qed.

(** ** The script-loading state *)

(** The instances awaiting their draw: [window.googleMaps], empty while it
    is undefined. *)
Definition queue (l : loader_state) : list inst_id :=
  default [] (window_googleMaps l).

(** What [load], called on [this] with [options.key = key], does to the
    script-loading state. *)
Definition load_loader (this : inst_id) (key : jsval) (l : loader_state)
  : loader_state :=
  if google_defined l then with_loaded true l
  else
    let l' := with_googleMaps (Some (queue l ++ [this])) l in
    if Plugin_loaded l then l'
    else
      with_loaded true
        (with_requests
           (script_requests l ++ [{| url_fixed := api_url; url_key := key |}])
           l').

Ltac run := repeat (rewrite run_bind; simpl).

Lemma load_loader_spec w this self :
  instances (page w) !! this = Some self →
  loader (exec (Plugin.load this) w) =
  load_loader this (obj_get "key" (this_options self)) (loader w).
Proof.
  intros Hself. unfold exec, Plugin.load, load_loader.
  rewrite run_bind. simpl. rewrite ready_google_defined.
  destruct (google_defined (loader w)) eqn:Hg.
  - rewrite run_bind. simpl.
    apply (draw_blind loader (λ _ _, eq_refl) (λ _ _, eq_refl) this
             (on_loader (with_loaded true) w)).
  - run. unfold queue.
    assert (Plugin_loaded
              match window_googleMaps (loader w) with
              | Some _ => loader w
              | None => with_googleMaps (Some []) (loader w)
              end = Plugin_loaded (loader w)) as ->
      by (by destruct (window_googleMaps _)).
    destruct (Plugin_loaded (loader w)) eqn:Hl; simpl.
    + destruct (window_googleMaps (loader w)) eqn:E; rewrite ?E; reflexivity.
    + rewrite run_bind.
      rewrite (run_deref_instance _ _ self) by done.
      simpl. destruct (window_googleMaps (loader w)) eqn:E; rewrite ?E; reflexivity.
Qed.

Lemma exec_bind {A B} (m : M A) (k : A → M B) w :
  exec (m ≫= k) w =
  match m w with
  | (Ret a, w') => exec (k a) w'
  | (Throw e, w') => w'
  end.
Proof. unfold exec. rewrite run_bind. by destruct (m w) as [[?|?] ?]. Qed.

(** The options an instance is built with. *)
Definition merged (options : jsval) : js_object :=
  jq_extend (jq_extend [] (VObj defaults)) options.

(** The instance the constructor allocates, before [init] runs. *)
Definition fresh (e : elem_id) (options : jsval) : instance :=
  {| this_element := e; this_options := merged options;
     _centered := false; _zoomed := false; _styles := None; _content := None;
     this_map := None; this_bounds := None |}.

(** The constructor up to its call of [load]: the instance is allocated and
    the element's style and content are saved in it. *)
Definition constructed (e : elem_id) (options : jsval) (el : element)
    (w : world) : world :=
  on_page (λ p, with_instances
    (instances p ++
       [with_saved (el_style el) (Some (el_html el)) (fresh e options)])
    p) w.

Lemma new_unfold w e options :
  Plugin.new e options w =
  match elements (page w) !! e with
  | Some el =>
      (Plugin.load (length (instances (page w))) ;;
       ret (length (instances (page w))))
        (constructed e options el w)
  | None =>
      (Throw Dangling,
       on_page (λ p, with_instances (instances p ++ [fresh e options]) p) w)
  end.
Proof.
  unfold Plugin.new, Plugin.init, alloc_instance, jq_attr_style, jq_html.
  fold (merged options). fold (fresh e options).
  rewrite run_bind. rewrite !run_bind.
  rewrite (run_deref_instance _ _ (fresh e options))
    by (simpl; apply list_lookup_middle; done).
  simpl. rewrite !run_bind. unfold deref_element at 1. simpl.
  destruct (elements (page w) !! e) as [el|] eqn:He; [|done].
  simpl. rewrite !run_bind. unfold deref_element. simpl. rewrite He. simpl.
  rewrite !run_bind. simpl.
  replace (on_page _ (on_page _ w)) with (constructed e options el w); [done|].
  unfold constructed, on_page. simpl. f_equal. unfold with_instances. simpl.
  f_equal. rewrite alter_app_r_alt by done. by rewrite Nat.sub_diag.
Qed.

Lemma new_loader w e options :
  loader (exec (Plugin.new e options) w) =
  match elements (page w) !! e with
  | Some _ =>
      load_loader (length (instances (page w)))
        (obj_get "key" (merged options)) (loader w)
  | None => loader w
  end.
Proof.
  unfold exec. rewrite new_unfold.
  destruct (elements (page w) !! e) as [el|]; [|done].
  rewrite run_bind.
  pose proof (load_loader_spec (constructed e options el w)
    (length (instances (page w)))
    (with_saved (el_style el) (Some (el_html el)) (fresh e options))) as H.
  unfold exec in H.
  destruct (Plugin.load _ _) as [[[]|?] w']; simpl in *;
    (rewrite H; [done|by apply list_lookup_middle]).
Qed.

(** A relation between script-loading states that [load] and the arrival
    of the script respect holds along every run. *)
Section loader_relation.
Context (RL : relation loader_state) `{!PreOrder RL}.
Context (Hload : ∀ this key l, RL l (load_loader this key l)).
Context (Hgoogle : ∀ l, RL l (with_google true l)).

Definition on_loaders : relation world := λ w w', RL (loader w) (loader w').

#[local] Instance on_loaders_preorder : PreOrder on_loaders.
Proof.
  split; [intros w; unfold on_loaders; reflexivity|].
  intros w1 w2 w3. unfold on_loaders. apply transitivity.
Qed.

Lemma blind_on_loaders {A} (m : M A) :
  preserves (agree loader) m → preserves on_loaders m.
Proof. intros H w. unfold on_loaders. rewrite (H w). reflexivity. Qed.

Lemma new_on_loaders e options : preserves on_loaders (Plugin.new e options).
Proof.
  intros w. unfold on_loaders. fold (exec (Plugin.new e options) w).
  rewrite new_loader. destruct (_ !! e); [apply Hload|reflexivity].
Qed.

Lemma apply_to_on_loaders options e : preserves on_loaders (apply_to options e).
Proof.
  unfold apply_to.
  preserves_rule preserves_bind; [apply blind_on_loaders; unfold jq_data; preserves_auto|].
  intros instance. destruct options, instance;
    try (preserves_rule preserves_ret);
    try (preserves_rule preserves_bind;
         [apply new_on_loaders
         |intros ?; apply blind_on_loaders; unfold jq_set_data, update_element;
          preserves_auto]).
  repeat (destruct (String.eqb _ _)); apply blind_on_loaders;
    first [ apply draw_blind | apply remove_blind | apply destroy_blind
          | preserves_rule preserves_ret ]; done.
Qed.

Lemma fn_googleMaps_on_loaders c options :
  preserves on_loaders (fn_googleMaps c options).
Proof.
  unfold fn_googleMaps. destruct (is_instance_word _).
  - destruct (_ <$> _) as [|? []]; preserves_rule preserves_ret.
  - preserves_rule preserves_bind; [|intros; preserves_rule preserves_ret].
    preserves_rule preserves_each. apply apply_to_on_loaders.
Qed.

Lemma script_loaded_on_loaders : preserves on_loaders script_loaded.
Proof.
  unfold script_loaded, googleMapsInit.
  preserves_rule preserves_bind; [intros w; apply Hgoogle|intros _].
  apply blind_on_loaders. preserves_auto. by apply draw_blind.
Qed.

Lemma step_on_loaders w ev : on_loaders w (step w ev).
Proof.
  destruct ev; simpl; unfold exec.
  - apply fn_googleMaps_on_loaders.
  - apply script_loaded_on_loaders.
  - by apply blind_on_loaders, bounds_changed_blind.
  - by apply blind_on_loaders, marker_clicked_blind.
  - by apply blind_on_loaders, window_resize_blind.
  - by apply blind_on_loaders, timer_fires_blind.
  - by apply blind_on_loaders, dom_write_blind.
  - by apply blind_on_loaders, other_script_blind.
Qed.

Lemma run_on_loaders w evs : on_loaders w (run w evs).
Proof.
  revert w. induction evs as [|ev evs IH]; intros w; simpl; [reflexivity|].
  etrans; [apply step_on_loaders|apply IH].
Qed.
End loader_relation.

(** *** The script is requested once *)

(** The invariant of the script-loading state: at most one request; none
    (and no queue) before [Plugin.loaded] is set; exactly one once the flag
    is set while the API is missing, and whenever the queue exists. *)
Definition loader_ok (l : loader_state) : Prop :=
  length (script_requests l) ≤ 1 ∧
  (Plugin_loaded l = false →
   script_requests l = [] ∧ window_googleMaps l = None) ∧
  (Plugin_loaded l = true → google_defined l = false →
   length (script_requests l) = 1) ∧
  (window_googleMaps l ≠ None → length (script_requests l) = 1).

Definition keeps {X} (P : X → Prop) : relation X := λ x x', P x → P x'.

#[global] Instance keeps_preorder {X} (P : X → Prop) : PreOrder (keeps P).
Proof.
  split; [intros x; unfold keeps; auto|].
  intros x y z. unfold keeps. auto.
Qed.

Lemma load_loader_ok this key l : keeps loader_ok l (load_loader this key l).
Proof.
  intros (Hle & Hno & Hone & Hq). unfold load_loader, loader_ok.
  destruct (google_defined l) eqn:Hg; simpl.
  - rewrite Hg. repeat split; try done.
  - destruct (Plugin_loaded l) eqn:Hl; simpl; rewrite ?Hg, ?Hl.
    + specialize (Hone eq_refl eq_refl). repeat split; try done; lia.
    + destruct (Hno eq_refl) as [-> _]. simpl. repeat split; try done.
Qed.

Lemma with_google_ok l : keeps loader_ok l (with_google true l).
Proof.
  intros (Hle & Hno & Hone & Hq). unfold loader_ok. simpl.
  repeat split; try done; by apply Hno.
Qed.

Lemma start_loader_ok dom : loader_ok (loader (start dom)).
Proof. unfold loader_ok. simpl. repeat split; try done; lia. Qed.

Lemma run_loader_ok dom evs : loader_ok (loader (run (start dom) evs)).
Proof.
  apply (run_on_loaders (keeps loader_ok) load_loader_ok with_google_ok).
  apply start_loader_ok.
Qed.

(** C3. Along every run from the start of the page the API script is
    requested at most once, and exactly once as soon as the queue of waiting
    instances exists.  A construction that finds neither the API nor the
    flag [Plugin.loaded] issues the request, sets the flag and enqueues the
    instance; a construction that finds the flag set while the API is still
    missing only enqueues the instance. *)
Theorem script_requested_once :
  (∀ dom evs,
     length (script_requests (loader (run (start dom) evs))) ≤ 1 ∧
     (window_googleMaps (loader (run (start dom) evs)) ≠ None →
      length (script_requests (loader (run (start dom) evs))) = 1)) ∧
  (∀ w e el options,
     elements (page w) !! e = Some el →
     google_defined (loader w) = false →
     Plugin_loaded (loader w) = false →
     loader (exec (Plugin.new e options) w) =
     {| google_defined := false; Plugin_loaded := true;
        window_googleMaps :=
          Some (queue (loader w) ++ [length (instances (page w))]);
        script_requests :=
          script_requests (loader w) ++
          [{| url_fixed := api_url;
              url_key := obj_get "key" (merged options) |}] |}) ∧
  (∀ w e el options,
     elements (page w) !! e = Some el →
     google_defined (loader w) = false →
     Plugin_loaded (loader w) = true →
     loader (exec (Plugin.new e options) w) =
     {| google_defined := false; Plugin_loaded := true;
        window_googleMaps :=
          Some (queue (loader w) ++ [length (instances (page w))]);
        script_requests := script_requests (loader w) |}).
Proof.
  split; [|split].
  - intros dom evs. destruct (run_loader_ok dom evs) as (Hle & _ & _ & Hq).
    by split.
  - intros w e el options He Hg Hl. rewrite new_loader, He.
    unfold load_loader. rewrite Hg, Hl.
    unfold with_loaded, with_requests, with_googleMaps. simpl. by rewrite Hg.
  - intros w e el options He Hg Hl. rewrite new_loader, He.
    unfold load_loader. rewrite Hg, Hl. unfold with_googleMaps.
    by rewrite Hg, Hl.
Qed.

(** *** The queue is never emptied *)

(** How the queue evolves: the API stays defined, the queue only grows at
    its end, and it does not change once the API is defined. *)
Definition queue_grows : relation loader_state := λ l l',
  (google_defined l = true → google_defined l' = true) ∧
  queue l `prefix_of` queue l' ∧
  (google_defined l = true → queue l' = queue l).

#[global] Instance queue_grows_preorder : PreOrder queue_grows.
Proof.
  split.
  - intros l. by repeat split.
  - intros l1 l2 l3 (Hg1 & Hp1 & Hq1) (Hg2 & Hp2 & Hq2). repeat split.
    + auto.
    + by etrans.
    + intros Hg. rewrite Hq2, Hq1; auto.
Qed.

Lemma load_loader_grows this key l : queue_grows l (load_loader this key l).
Proof.
  unfold load_loader, queue_grows.
  destruct (google_defined l) eqn:Hg; simpl.
  - by rewrite Hg.
  - repeat split; try done.
    destruct (Plugin_loaded l); simpl; by apply prefix_app_r.
Qed.

Lemma with_google_grows l : queue_grows l (with_google true l).
Proof. by repeat split. Qed.

Lemma script_loaded_loader w :
  loader (exec script_loaded w) = with_google true (loader w).
Proof.
  unfold script_loaded. rewrite exec_bind. simpl.
  assert (preserves (agree loader) googleMapsInit) as H.
  { unfold googleMapsInit. preserves_auto. by apply draw_blind. }
  apply H.
Qed.

(** A container without a [style] attribute. *)
Definition div : element :=
  {| el_style := None; el_html := "Loading map"; el_data := None |}.

(** C5, as stated, fails.  One instance is constructed before the API is
    there, then the script arrives and its callback runs: the API is ready
    and the queue still holds the instance. *)
Lemma queue_survives_callback :
  google_defined
    (loader (run (start [div]) [Call (selected [0]) (VObj []); ScriptLoaded]))
  = true ∧
  window_googleMaps
    (loader (run (start [div]) [Call (selected [0]) (VObj []); ScriptLoaded]))
  = Some [0].
Proof. split; reflexivity. Qed.

(** C5, amended.  The queue is only ever appended to, and only while the
    API is missing: every step leaves the earlier queue as a prefix of the
    later one, and once the API is defined no step changes the queue.  The
    arrival of the script, callback included, leaves the queue as it
    was. *)
Theorem queue_grows_until_ready (w : world) (ev : event) :
  queue (loader w) `prefix_of` queue (loader (step w ev)) ∧
  (google_defined (loader w) = true →
   queue (loader (step w ev)) = queue (loader w)) ∧
  queue (loader (step w ScriptLoaded)) = queue (loader w).
Proof.
  destruct (step_on_loaders queue_grows load_loader_grows with_google_grows w ev)
    as (_ & Hp & Hq).
  repeat split; [done..|].
  simpl. by rewrite script_loaded_loader.
Qed.

(** ** Inserting a point *)

(** The location [insertPoint] builds from a point. *)
Definition location_of (options : jsval) : latlng :=
  {| lat := prop options "lat"; lng := prop options "lng" |}.

Lemma truthy_defined v : truthy v = true → defined v = true.
Proof. by destruct v. Qed.

Lemma point_coordinate options k :
  truthy (prop options k) = true →
  obj_get k (jq_extend point_defaults options) = prop options k.
Proof. intros H. rewrite jq_extend_get. by rewrite (truthy_defined _ H). Qed.

Lemma run_the_bounds w this self b :
  instances (page w) !! this = Some self → this_bounds self = Some b →
  the_bounds this w = (Ret b, w).
Proof.
  intros Hs Hb. unfold the_bounds. rewrite run_bind.
  rewrite (run_deref_instance _ _ _ Hs). simpl. by rewrite Hb.
Qed.

Lemma run_the_map w this self m :
  instances (page w) !! this = Some self → this_map self = Some m →
  the_map this w = (Ret m, w).
Proof.
  intros Hs Hm. unfold the_map. rewrite run_bind.
  rewrite (run_deref_instance _ _ _ Hs). simpl. by rewrite Hm.
Qed.

(** ** Computations that return *)

(** Under the invariant [P], [m] returns a value and keeps [P]. *)
Definition safe (P : world → Prop) {A} (m : M A) : Prop :=
  ∀ w, P w → (∃ a, (m w).1 = Ret a) ∧ P (m w).2.

Section safe.
Context (P : world → Prop).

Lemma safe_ret {A} (a : A) : safe P (ret a).
Proof. intros w HP. split; [by exists a|done]. Qed.

Lemma safe_gets {A} (f : world → A) : safe P (gets f).
Proof. intros w HP. split; [by eexists|done]. Qed.

Lemma safe_modify f : (∀ w, P w → P (f w)) → safe P (modify f).
Proof. intros H w HP. split; [by exists tt|by apply H]. Qed.

Lemma safe_bind {A B} (m : M A) (k : A → M B) :
  safe P m → (∀ a, safe P (k a)) → safe P (m ≫= k).
Proof.
  intros Hm Hk w HP. rewrite run_bind.
  destruct (Hm w HP) as [[a Ha] HP']. destruct (m w) as [r w'].
  simpl in *. subst r. by apply Hk.
Qed.

Lemma safe_when c (m : M unit) : safe P m → safe P (when c m).
Proof. destruct c; simpl; [done|intros _; apply safe_ret]. Qed.

Lemma safe_each {A} (l : list A) (f : A → M unit) :
  (∀ x, x ∈ l → safe P (f x)) → safe P (each l f).
Proof.
  induction l as [|x l IH]; intros Hf; simpl; [apply safe_ret|].
  apply safe_bind; [apply Hf; left|intros _].
  apply IH. intros y Hy. apply Hf. by right.
Qed.

Lemma safe_google :
  (∀ w, P w → google_defined (loader w) = true) → safe P google_maps.
Proof.
  intros H w HP. rewrite (run_google _ (H w HP)). split; [by exists tt|done].
Qed.

Lemma safe_deref_instance i :
  (∀ w, P w → is_Some (instances (page w) !! i)) →
  safe P (deref_instance i).
Proof.
  intros H w HP. unfold deref_instance. destruct (H w HP) as [self ->].
  split; [by eexists|done].
Qed.
End safe.

Ltac safe_step :=
  lazymatch goal with
  | |- safe _ (_ ≫= _) => apply safe_bind; [|intros ?]
  | |- safe _ (ret _) => apply safe_ret
  | |- safe _ (gets _) => apply safe_gets
  | |- safe _ (when _ _) => apply safe_when
  | |- safe _ (modify _) => apply safe_modify
  | |- safe _ (match ?x with _ => _ end) => destruct x
  end.

(** The API is there and [this] has its bounds. *)
Definition can_insert (this : inst_id) (w : world) : Prop :=
  google_defined (loader w) = true ∧
  ∃ self, instances (page w) !! this = Some self ∧ is_Some (this_bounds self).

Lemma insertPoint_safe this options :
  safe (can_insert this) (Plugin.insertPoint this options).
Proof.
  unfold Plugin.insertPoint. cbv zeta.
  assert (safe (can_insert this) google_maps) as Hgoogle
    by (apply safe_google; by intros w [? _]).
  assert (safe (can_insert this) (deref_instance this)) as Hderef.
  { apply safe_deref_instance. intros w (_ & self & -> & _). by eexists. }
  assert (safe (can_insert this) (the_bounds this)) as Hbounds.
  { intros w HP. pose proof HP as (_ & self & Hs & [b Hb]).
    rewrite (run_the_bounds _ _ _ _ Hs Hb). split; [by eexists|done]. }
  unfold_prims. repeat safe_step; try done;
    (intros w HP; split; [by eexists|done]).
Qed.

Lemma insertPoint_valid w this self b options :
  google_defined (loader w) = true →
  instances (page w) !! this = Some self →
  this_bounds self = Some b →
  truthy (prop options "lat") = true →
  truthy (prop options "lng") = true →
  (Plugin.insertPoint this options w).1 = Ret tt ∧
  boundses (api (exec (Plugin.insertPoint this options) w)) =
  alter (λ ps, ps ++ [location_of options]) b (boundses (api w)).
Proof.
  intros Hg Hs Hb Hlat Hlng. split.
  { destruct (insertPoint_safe this options w) as [[[] ->] _]; [|done].
    split; [done|]. exists self. by rewrite Hb. }
  unfold exec, Plugin.insertPoint. cbv zeta.
  rewrite !point_truthy by reflexivity. rewrite Hlat, Hlng. simpl.
  rewrite (point_coordinate _ "lat"), (point_coordinate _ "lng") by done.
  fold (location_of options).
  unfold new_LatLng. rewrite !run_bind. rewrite (run_google _ Hg). simpl.
  rewrite run_bind, (run_the_bounds _ _ _ _ Hs Hb). simpl.
  rewrite run_bind. unfold bounds_extend at 1. simpl.
  match goal with
  | |- boundses (api (?m ?w1).2) = _ =>
      assert (preserves (agree (λ w, boundses (api w))) m) as Hrest
  end.
  { unfold_prims. preserves_auto. }
  rewrite Hrest. reflexivity.
Qed.

(** C8. When [lat] and [lng] are truthy, and the API and the instance's
    bounds are there, [insertPoint] returns after extending the bounds with
    the location: the accumulator holds what it held, followed by the new
    location, whatever the point says about a marker; no accumulator loses a
    location. *)
Theorem insertPoint_extends_bounds (w : world) (this : inst_id)
    (self : instance) (b : bounds_id) (ps : list latlng) (options : jsval) :
  google_defined (loader w) = true →
  instances (page w) !! this = Some self →
  this_bounds self = Some b →
  boundses (api w) !! b = Some ps →
  truthy (prop options "lat") = true →
  truthy (prop options "lng") = true →
  (Plugin.insertPoint this options w).1 = Ret tt ∧
  boundses (api (exec (Plugin.insertPoint this options) w)) !! b =
    Some (ps ++ [location_of options]) ∧
  (∀ b' ps', boundses (api w) !! b' = Some ps' →
     ∃ ps'', boundses (api (exec (Plugin.insertPoint this options) w)) !! b'
             = Some ps'' ∧ ps' ⊆ ps'').
Proof.
  intros Hg Hs Hb Hps Hlat Hlng.
  destruct (insertPoint_valid w this self b options) as [Hret Heq]; try done.
  split; [done|]. rewrite Heq. split.
  - by rewrite list_lookup_alter_eq, Hps.
  - intros b' ps' Hb'. destruct (decide (b = b')) as [<-|Hne].
    + rewrite list_lookup_alter_eq, Hb'. simpl. eexists. split; [done|].
      intros x Hx. apply elem_of_app. by left.
    + rewrite list_lookup_alter_ne by done. by exists ps'.
Qed.

(** ** The viewport: [zoom] and its listeners *)

(** Is [options.center] usable, is [options.zoom] set? *)
Definition center_given (self : instance) : bool :=
  truthy (obj_get "center" (this_options self))
  && defined (prop (obj_get "center" (this_options self)) "lat")
  && defined (prop (obj_get "center" (this_options self)) "lng").
Definition zoom_given (self : instance) : bool :=
  truthy (obj_get "zoom" (this_options self)).

(** The calls one run of [zoom] makes on the map [m], and the listeners it
    registers. *)
Definition viewport_calls (self : instance) (m : map_id) : list ext_call :=
  FitBounds m (this_bounds self)
  :: (if center_given self
      then [SetCenter m (obj_get "center" (this_options self))] else [])
  ++ (if zoom_given self
      then [SetZoom m (obj_get "zoom" (this_options self))] else []).
Definition viewport_listeners (this : inst_id) (self : instance)
  : list listener :=
  (if center_given self
   then [CenterListener this (obj_get "center" (this_options self))] else [])
  ++ (if zoom_given self
      then [ZoomListener this (obj_get "zoom" (this_options self))] else []).

(** The world after [zoom] ran for the instance [self] on its map [m]. *)
Definition zoomed (this : inst_id) (self : instance) (m : map_id) (w : world)
  : world :=
  on_api (λ a,
    with_maps
      (alter (λ mo, with_listeners
                (map_listeners mo ++ viewport_listeners this self) mo)
         m (maps a))
      (with_trace (trace a ++ viewport_calls self m) a)) w.

Lemma zoom_run w this self m :
  instances (page w) !! this = Some self →
  this_map self = Some m →
  Plugin.zoom this w = (Ret tt, zoomed this self m w).
Proof.
  intros Hs Hm. unfold Plugin.zoom. cbv zeta.
  rewrite run_bind, (run_deref_instance _ _ _ Hs). simpl.
  rewrite run_bind, (run_the_map _ _ _ _ Hs Hm). simpl.
  fold (center_given self). fold (zoom_given self).
  unfold zoomed, viewport_calls, viewport_listeners.
  unfold log, map_addListener, modify.
  destruct (center_given self), (zoom_given self); run;
    unfold on_api, with_maps, with_trace, with_listeners; simpl;
    do 3 f_equal;
    rewrite ?list_alter_alter_eq, <- ?app_assoc, ?app_nil_r; try done.
  - apply list_alter_ext; [|done]. intros mo _. simpl.
    by rewrite <- app_assoc.
  - symmetry. apply list_alter_id. intros mo. destruct mo. simpl.
    by rewrite app_nil_r.
Qed.

(** ** Drawing *)

(** The instance once [draw] gave it its map and bounds: the next free
    handles of the API. *)
Definition drawn_instance (self : instance) (w : world) : instance :=
  with_bounds (Some (length (boundses (api w))))
    (with_map (Some (length (maps (api w)))) self).

(** The world [draw] inserts the points in: map and bounds created and
    stored, native options applied. *)
Definition begun (this : inst_id) (self : instance) (w : world) : world :=
  on_api (λ a,
    with_trace
      (trace a ++ [SetOptions (length (maps (api w)))
                     (obj_get "options" (this_options self))])
      (with_boundses (boundses a ++ [[]])
         (with_maps
            (maps a ++ [{| map_element := this_element self;
                           map_listeners := [] |}]) a)))
    (on_page (λ p,
       with_instances
         (alter (λ _, drawn_instance self w) this (instances p)) p) w).

Lemma alter_const_twice {A} (f g : A → A) (x y : A) i (l : list A) :
  l !! i = Some x → g (f x) = y →
  alter g i (alter f i l) = alter (λ _, y) i l.
Proof.
  intros Hx Hy. rewrite list_alter_alter_eq.
  apply list_alter_ext; [|done]. intros z Hz. simpl. congruence.
Qed.

Lemma draw_begin_run w this self :
  google_defined (loader w) = true →
  instances (page w) !! this = Some self →
  Plugin.draw_begin this w =
  jq_each (obj_get "points" (this_options self))
    (Plugin.insertPoint this) (begun this self w).
Proof.
  intros Hg Hs. unfold Plugin.draw_begin.
  rewrite run_bind, (run_deref_instance _ _ _ Hs). simpl.
  unfold new_Map, new_LatLngBounds, update_instance, log, modify.
  repeat first [rewrite run_bind | rewrite run_google by done | progress simpl].
  f_equal.
  unfold begun, on_api, on_page, with_instances, with_trace, with_boundses,
    with_maps. simpl.
  by rewrite (alter_const_twice _ _ self (drawn_instance self w)).
Qed.

Lemma begun_can_insert w this self :
  google_defined (loader w) = true →
  instances (page w) !! this = Some self →
  can_insert this (begun this self w).
Proof.
  intros Hg Hs. split; [done|]. exists (drawn_instance self w). simpl.
  rewrite list_lookup_alter_eq, Hs. split; [done|]. by eexists.
Qed.

(** Inserting points touches nothing but the bounds, the markers and the
    info windows. *)
Lemma insert_points_run w this (points : list jsval) :
  can_insert this w →
  ∃ w', each points (Plugin.insertPoint this) w = (Ret tt, w') ∧
        loader w' = loader w ∧ page w' = page w ∧
        maps (api w') = maps (api w) ∧ trace (api w') = trace (api w).
Proof.
  intros Hc.
  destruct (safe_each (can_insert this) points (Plugin.insertPoint this)
              (λ x _, insertPoint_safe this x) w Hc) as [[[] Hret] _].
  exists (each points (Plugin.insertPoint this) w).2. split.
  { rewrite <- Hret. by destruct (each _ _ _). }
  repeat split;
    match goal with
    | |- ?f (?g (each ?l ?h ?w).2) = _ =>
        apply (preserves_each (agree (λ w, f (g w))) l h)
    | |- ?f (each ?l ?h ?w).2 = _ =>
        apply (preserves_each (agree f) l h)
    end; intros x; by apply insertPoint_preserves.
Qed.

(** Can [$.each] visit [v]? *)
Definition iterable (v : jsval) : bool :=
  match each_items v with Some _ => true | None => false end.

(** What the end of [draw] returns: a [TypeError] when [options.callback]
    is truthy and not a function, and what the callback throws when it is a
    function that throws. *)
Definition callback_outcome (self : instance) : outcome unit :=
  match obj_get "callback" (this_options self) with
  | VFun _ Returns => Ret tt
  | VFun _ Throws => Throw Thrown
  | cb => if truthy cb then Throw TypeError else Ret tt
  end.
Definition callback_calls (this : inst_id) (self : instance) : list ext_call :=
  match obj_get "callback" (this_options self) with
  | VFun c _ => [UserCallback c this]
  | _ => []
  end.
Definition subscription (this : inst_id) (self : instance) : list inst_id :=
  if truthy (obj_get "responsive" (this_options self)) then [this] else [].

Definition ended (this : inst_id) (self : instance) (w : world) : world :=
  on_api (λ a, with_trace (trace a ++ callback_calls this self) a)
    (on_page (λ p,
       with_handlers (resized_handlers p ++ subscription this self) p) w).

Lemma draw_end_run w this self :
  instances (page w) !! this = Some self →
  Plugin.draw_end this w = (callback_outcome self, ended this self w).
Proof.
  intros Hs. unfold Plugin.draw_end.
  rewrite run_bind, (run_deref_instance _ _ _ Hs). simpl.
  unfold ended, callback_outcome, callback_calls, subscription,
    window_on_resized, call_function, log, modify.
  destruct w as [l p a], p, a.
  destruct (truthy (obj_get "responsive" _));
    destruct (obj_get "callback" _) as [| |[]|x|s|o|items|c []]; run;
    unfold on_api, on_page, with_handlers, with_trace; simpl;
    rewrite ?app_nil_r; try done;
    match goal with |- when ?c _ _ = _ => by destruct c end.
Qed.

(** [draw], when the API is there and the points can be visited: it runs
    to its end, where only the callback can fail, and this is the world it
    leaves. *)
Lemma draw_run w this self :
  google_defined (loader w) = true →
  instances (page w) !! this = Some self →
  iterable (obj_get "points" (this_options self)) = true →
  ∃ w', Plugin.draw this w = (callback_outcome self, w') ∧
    loader w' = loader w ∧
    page w' =
      with_handlers (resized_handlers (page w) ++ subscription this self)
        (with_instances
           (alter (λ _, drawn_instance self w) this (instances (page w)))
           (page w)) ∧
    maps (api w') =
      maps (api w) ++
      [{| map_element := this_element self;
          map_listeners := viewport_listeners this self |}] ∧
    trace (api w') =
      trace (api w) ++
      SetOptions (length (maps (api w))) (obj_get "options" (this_options self))
      :: viewport_calls (drawn_instance self w) (length (maps (api w)))
      ++ callback_calls this self.
Proof.
  intros Hg Hs Hpts. unfold Plugin.draw.
  rewrite run_bind, (draw_begin_run _ _ _ Hg Hs).
  unfold iterable in Hpts. unfold jq_each.
  destruct (each_items (obj_get "points" (this_options self)))
    as [points|]; [clear Hpts|done].
  destruct (insert_points_run (begun this self w) this points
              (begun_can_insert _ _ _ Hg Hs))
    as (w1 & -> & Hl1 & Hp1 & Hm1 & Ht1).
  assert (instances (page w1) !! this = Some (drawn_instance self w)) as Hs1.
  { rewrite Hp1. simpl. by rewrite list_lookup_alter_eq, Hs. }
  rewrite run_bind, (zoom_run _ _ _ (length (maps (api w))) Hs1) by done.
  rewrite (draw_end_run _ _ (drawn_instance self w)) by done.
  eexists. split; [reflexivity|]. simpl. rewrite Hl1, Hp1, Hm1, Ht1. simpl.
  repeat split.
  - rewrite alter_app_r_alt by done. by rewrite Nat.sub_diag.
  - unfold viewport_calls. rewrite <- !app_assoc. simpl.
    by rewrite <- !app_assoc.
Qed.

(** [draw], when the API is there and [$.each] cannot visit the points:
    the map and the bounds are created and stored, the native options
    applied, and there [draw] ends with a [TypeError], before [zoom], the
    subscription and the callback. *)
Lemma draw_stops_at_points w this self :
  google_defined (loader w) = true →
  instances (page w) !! this = Some self →
  iterable (obj_get "points" (this_options self)) = false →
  Plugin.draw this w = (Throw TypeError, begun this self w).
Proof.
  intros Hg Hs Hpts. unfold Plugin.draw.
  rewrite run_bind, (draw_begin_run _ _ _ Hg Hs).
  unfold iterable in Hpts. unfold jq_each.
  by destruct (each_items (obj_get "points" (this_options self))).
Qed.

(** [draw], while the API is missing or on a reference to nothing: it
    throws before it did anything. *)
Lemma draw_fails w this :
  google_defined (loader w) = false ∨ instances (page w) !! this = None →
  ∃ e, Plugin.draw this w = (Throw e, w).
Proof.
  intros H. unfold Plugin.draw, Plugin.draw_begin, deref_instance.
  rewrite !run_bind.
  destruct (instances (page w) !! this) as [self|] eqn:Hs; [|by eexists].
  destruct H as [Hg|]; [|done].
  unfold new_Map. rewrite !run_bind, (run_google_missing _ Hg). by eexists.
Qed.

(** ** The guard flags across a draw *)

Lemma draw_begin_flags this : preserves (agree flags) (Plugin.draw_begin this).
Proof.
  unfold Plugin.draw_begin, new_Map, new_LatLngBounds, log.
  repeat preserves_step;
    try (by apply update_instance_flags);
    try (by apply insertPoint_api_only);
    intros ?; reflexivity.
Qed.

Lemma draw_end_flags this : preserves (agree flags) (Plugin.draw_end this).
Proof.
  unfold Plugin.draw_end, window_on_resized, call_function, log.
  repeat preserves_step; intros ?; reflexivity.
Qed.

Lemma draw_flags this : preserves (agree flags) (Plugin.draw this).
Proof.
  unfold Plugin.draw. repeat preserves_step.
  - apply draw_begin_flags.
  - by apply zoom_api_only.
  - apply draw_end_flags.
Qed.

Lemma load_flags this : preserves (agree flags) (Plugin.load this).
Proof.
  unfold Plugin.load, jq_getScript.
  repeat preserves_step; try apply draw_flags; intros ?; reflexivity.
Qed.

Lemma new_flags w e options :
  flags (exec (Plugin.new e options) w) = flags w ++ [(false, false)].
Proof.
  unfold exec. rewrite new_unfold.
  destruct (elements (page w) !! e) as [el|].
  - rewrite run_bind.
    pose proof (load_flags (length (instances (page w)))
                  (constructed e options el w)) as H.
    unfold agree in H.
    destruct (Plugin.load _ _) as [[[]|?] w']; simpl in *; rewrite H;
      unfold flags; simpl; by rewrite fmap_app.
  - unfold flags. simpl. by rewrite fmap_app.
Qed.

(** The API arrives, an instance with [zoom: 5] is constructed and drawn,
    and its map notifies [bounds_changed] once. *)
Definition zoom5 : jsval := VObj [("zoom", VNum 5)].
Definition notified_once : world :=
  run (start [div])
    [ScriptLoaded; Call (selected [0]) zoom5; BoundsChanged 0].

(** C1 at the failing input.  After the first notification [_zoomed] is
    set; a redraw leaves it set, both where [draw] is about to call [zoom]
    (and so [fitBounds]) and when [draw] is over, although [zoom] has
    registered a fresh listener on the new map; and the notification of the
    new map, the one its [fitBounds] triggers, re-applies nothing: the trace
    does not grow. *)
Theorem redraw_does_not_rearm :
  _zoomed <$> instances (page notified_once) !! 0 = Some true ∧
  _zoomed <$> instances (page (exec (Plugin.draw_begin 0) notified_once)) !! 0
    = Some true ∧
  _zoomed <$>
    instances (page (step notified_once (Call (selected [0]) (VStr "redraw"))))
      !! 0 = Some true ∧
  trace (api (run notified_once
                [Call (selected [0]) (VStr "redraw"); BoundsChanged 1])) =
  trace (api (run notified_once [Call (selected [0]) (VStr "redraw")])).
Proof. split_and!; vm_compute; reflexivity. Qed.

(** [draw] never writes the guard flags (X17): every instance has the
    flags it had, at the point where [draw] calls [zoom] and when [draw] is
    over, whether [draw] returns or throws.  It is the constructor that
    sets them, to [false], on the instance it allocates. *)
Theorem flags_set_by_constructor_only (w : world) (this : inst_id) :
  flags (exec (Plugin.draw_begin this) w) = flags w ∧
  flags (exec (Plugin.draw this) w) = flags w ∧
  (∀ e options,
     flags (exec (Plugin.new e options) w) = flags w ++ [(false, false)]).
Proof.
  split; [apply draw_begin_flags|]. split; [apply draw_flags|].
  intros e options. apply new_flags.
Qed.

(** ** Notifications of [bounds_changed] *)

(** What the listeners of an instance re-apply when its map notifies, and
    the instance afterwards. *)
Definition reapplied (self : instance) (m : map_id) : list ext_call :=
  (if center_given self && negb (_centered self)
   then [SetCenter m (obj_get "center" (this_options self))] else [])
  ++ (if zoom_given self && negb (_zoomed self)
      then [SetZoom m (obj_get "zoom" (this_options self))] else []).
Definition notified (self : instance) : instance :=
  with_zoomed (_zoomed self || zoom_given self)
    (with_centered (_centered self || center_given self) self).

Lemma reapplied_notified self m : reapplied (notified self) m = [].
Proof.
  unfold reapplied, notified, center_given, zoom_given. simpl.
  fold (center_given self). fold (zoom_given self).
  by destruct (center_given self), (zoom_given self), (_centered self),
    (_zoomed self).
Qed.

Lemma alter_same {A} (f : A → A) i (l : list A) x :
  l !! i = Some x → f x = x → alter f i l = l.
Proof.
  intros Hx Hf. apply list_eq. intros j.
  destruct (decide (i = j)) as [<-|Hne].
  - by rewrite list_lookup_alter_eq, Hx; simpl; rewrite Hf.
  - by rewrite list_lookup_alter_ne.
Qed.

Lemma run_center_listener w this self m c :
  instances (page w) !! this = Some self → this_map self = Some m →
  ∃ w', run_listener (CenterListener this c) w = (Ret tt, w') ∧
    trace (api w') =
      trace (api w) ++ (if _centered self then [] else [SetCenter m c]) ∧
    instances (page w') !! this = Some (with_centered true self) ∧
    maps (api w') = maps (api w).
Proof.
  intros Hs Hm. unfold run_listener.
  rewrite run_bind, (run_deref_instance _ _ _ Hs). simpl.
  destruct (_centered self) eqn:Hc.
  - exists w. rewrite app_nil_r, Hs. repeat split. f_equal.
    destruct self. simpl in *. by subst.
  - rewrite run_bind, (run_the_map _ _ _ _ Hs Hm). simpl.
    eexists. split; [reflexivity|]. simpl.
    by rewrite list_lookup_alter_eq, Hs.
Qed.

Lemma run_zoom_listener w this self m z :
  instances (page w) !! this = Some self → this_map self = Some m →
  ∃ w', run_listener (ZoomListener this z) w = (Ret tt, w') ∧
    trace (api w') =
      trace (api w) ++ (if _zoomed self then [] else [SetZoom m z]) ∧
    instances (page w') !! this = Some (with_zoomed true self) ∧
    maps (api w') = maps (api w).
Proof.
  intros Hs Hm. unfold run_listener.
  rewrite run_bind, (run_deref_instance _ _ _ Hs). simpl.
  destruct (_zoomed self) eqn:Hc.
  - exists w. rewrite app_nil_r, Hs. repeat split. f_equal.
    destruct self. simpl in *. by subst.
  - rewrite run_bind, (run_the_map _ _ _ _ Hs Hm). simpl.
    eexists. split; [reflexivity|]. simpl.
    by rewrite list_lookup_alter_eq, Hs.
Qed.

(** One notification of the map of [this], when the listeners on the map
    are those one run of [zoom] registered. *)
Lemma bounds_changed_run w this self m mo :
  instances (page w) !! this = Some self → this_map self = Some m →
  maps (api w) !! m = Some mo →
  map_listeners mo = viewport_listeners this self →
  ∃ w', bounds_changed m w = (Ret tt, w') ∧
    trace (api w') = trace (api w) ++ reapplied self m ∧
    instances (page w') !! this = Some (notified self) ∧
    maps (api w') = maps (api w).
Proof.
  intros Hs Hm Hmo Hl. unfold bounds_changed. rewrite run_bind. simpl.
  rewrite Hmo. simpl. rewrite Hl.
  unfold viewport_listeners, reapplied, notified.
  destruct (run_center_listener w this self m
              (obj_get "center" (this_options self)) Hs Hm)
    as (wc & Hrc & Htc & Hsc & Hmc).
  destruct (run_zoom_listener w this self m
              (obj_get "zoom" (this_options self)) Hs Hm)
    as (wz & Hrz & Htz & Hsz & Hmz).
  destruct (run_zoom_listener wc this _ m
              (obj_get "zoom" (this_options self)) Hsc Hm)
    as (w2 & Hr2 & Ht2 & Hs2 & Hm2).
  destruct (center_given self) eqn:Hcg, (zoom_given self) eqn:Hzg;
    cbn [each app]; rewrite ?run_bind, ?Hrc, ?Hrz; cbn [each];
    rewrite ?run_bind, ?Hr2; cbn [ret].
  - exists w2. split; [done|].
    rewrite Ht2, Htc, Hs2, Hm2, Hmc, <- app_assoc, !orb_true_r. simpl.
    by destruct (_centered self), (_zoomed self).
  - exists wc. split; [done|].
    rewrite Htc, Hsc, Hmc, app_nil_r, orb_true_r, orb_false_r.
    destruct self. simpl. by destruct _centered0.
  - exists wz. split; [done|].
    rewrite Htz, Hsz, Hmz, orb_true_r, orb_false_r.
    destruct self. simpl. by destruct _zoomed0.
  - exists w. rewrite app_nil_r, !orb_false_r, Hs. repeat split.
    by destruct self.
Qed.

(** Any number of notifications: whatever is re-applied is re-applied by
    the first. *)
Lemma notifications w this self m mo n :
  instances (page w) !! this = Some self → this_map self = Some m →
  maps (api w) !! m = Some mo →
  map_listeners mo = viewport_listeners this self →
  trace (api (run w (replicate n (BoundsChanged m)))) =
  trace (api w) ++ (if n is 0 then [] else reapplied self m).
Proof.
  revert w self. induction n as [|n IH]; intros w self Hs Hm Hmo Hl; simpl.
  { by rewrite app_nil_r. }
  destruct (bounds_changed_run w this self m mo Hs Hm Hmo Hl)
    as (w' & Hr & Ht & Hs' & Hm').
  unfold exec. rewrite Hr. simpl.
  rewrite (IH w' (notified self)); try done; [|by rewrite Hm'].
  rewrite Ht. destruct n; [by rewrite app_nil_r|].
  by rewrite reapplied_notified, app_nil_r.
Qed.

Definition is_SetCenter (c : ext_call) : bool :=
  match c with SetCenter _ _ => true | _ => false end.
Definition is_SetZoom (c : ext_call) : bool :=
  match c with SetZoom _ _ => true | _ => false end.
Definition count (p : ext_call → bool) (calls : list ext_call) : nat :=
  length (List.filter p calls).

Lemma reapplied_count self m :
  count is_SetCenter (reapplied self m) ≤ 1 ∧
  count is_SetZoom (reapplied self m) ≤ 1.
Proof.
  unfold reapplied, count.
  destruct (center_given self && negb (_centered self)),
    (zoom_given self && negb (_zoomed self)); simpl; lia.
Qed.

(** A map without listeners notifies in vain. *)
Lemma silent_map w m mo n :
  maps (api w) !! m = Some mo → map_listeners mo = [] →
  run w (replicate n (BoundsChanged m)) = w.
Proof.
  intros Hmo Hl. induction n as [|n IH]; [done|].
  simpl. unfold exec, bounds_changed. rewrite run_bind. simpl.
  rewrite Hmo. simpl. rewrite Hl. simpl. exact IH.
Qed.

Lemma run_two w a b evs : run w (a :: b :: evs) = run (run w [a; b]) evs.
Proof. reflexivity. Qed.

(** At most one re-application in a draw cycle (X18).  After a draw,
    however many times the new map notifies [bounds_changed], the
    notifications add to the trace at most one [setCenter] and at most one
    [setZoom].  With [zoom: 5] and no center, constructed when the API is
    there: after one, two or more notifications of the first cycle the trace
    holds the [setZoom(5)] of [zoom] itself and exactly one more, the
    re-application, and nothing after it. *)
Theorem reapplied_at_most_once :
  (∀ w this self n,
     google_defined (loader w) = true →
     instances (page w) !! this = Some self →
     ∃ calls,
       trace (api (run (exec (Plugin.draw this) w)
                     (replicate n (BoundsChanged (length (maps (api w))))))) =
       trace (api (exec (Plugin.draw this) w)) ++ calls ∧
       count is_SetCenter calls ≤ 1 ∧ count is_SetZoom calls ≤ 1) ∧
  (∀ n,
     trace (api (run (start [div])
                   (ScriptLoaded :: Call (selected [0]) zoom5
                    :: replicate (S n) (BoundsChanged 0)))) =
     [SetOptions 0 (VObj []); FitBounds 0 (Some 0);
      SetZoom 0 (VNum 5); SetZoom 0 (VNum 5)]).
Proof.
  split.
  - intros w this self n Hg Hs.
    destruct (iterable (obj_get "points" (this_options self))) eqn:Hpts.
    + destruct (draw_run w this self Hg Hs Hpts)
        as (w' & Hr & _ & Hp & Hm & _).
      unfold exec. rewrite Hr. simpl.
      exists (if n is 0 then [] else
                reapplied (drawn_instance self w) (length (maps (api w)))).
      split.
      * eapply notifications.
        -- rewrite Hp. simpl. by rewrite list_lookup_alter_eq, Hs.
        -- done.
        -- rewrite Hm. by apply list_lookup_middle.
        -- done.
      * destruct n; [simpl; unfold count; simpl; lia|apply reapplied_count].
    + unfold exec. rewrite (draw_stops_at_points w this self Hg Hs Hpts).
      simpl. exists []. rewrite app_nil_r. split; [|unfold count; simpl; lia].
      erewrite silent_map; [done|simpl; by apply list_lookup_middle|done].
  - intros n. rewrite run_two.
    erewrite (notifications _ 0 _ 0); [|vm_compute; reflexivity..].
    vm_compute. reflexivity.
Qed.

(** The instance of [notified_once], redrawn. *)
Definition redrawn : world :=
  run notified_once [Call (selected [0]) (VStr "redraw")].

(** C2 at the failing input.  With [zoom: 5] and no center, in the draw
    cycle that a redraw starts after the zoom was re-applied once: [draw]
    makes its calls on the new map, [fitBounds] and [setZoom(5)] among them,
    and registers the zoom listener on it; but however many times the new
    map notifies afterwards, nothing is added to the trace: in this cycle the
    zoom is re-applied not once. *)
Theorem zoom_not_reapplied_after_redraw :
  trace (api redrawn) =
    trace (api notified_once) ++
    [SetOptions 1 (VObj []); FitBounds 1 (Some 1); SetZoom 1 (VNum 5)] ∧
  map_listeners <$> maps (api redrawn) !! 1 = Some [ZoomListener 0 (VNum 5)] ∧
  ∀ n, trace (api (run redrawn (replicate n (BoundsChanged 1)))) =
       trace (api redrawn).
Proof.
  split; [vm_compute; reflexivity|]. split; [vm_compute; reflexivity|].
  intros n.
  erewrite (notifications redrawn 0 _ 1 _ n); [|vm_compute; reflexivity..].
  destruct n; [by rewrite app_nil_r|]. vm_compute. reflexivity.
Qed.

(** ** Constructing before the API is there *)


Definition is_command (options : jsval) : bool :=
  match options with VStr _ => true | _ => false end.







(** ** The callback of the API script *)


(** [options.callback], once merged, is falsy or a function that
    returns. *)
Definition callback_returns (options : jsval) : bool :=
  match obj_get "callback" (merged options) with
  | VFun _ Returns => true
  | VFun _ Throws => false
  | cb => negb (truthy cb)
  end.

Lemma callback_returns_outcome self options :
  this_options self = merged options → callback_returns options = true →
  callback_outcome self = Ret tt.
Proof.
  unfold callback_returns, callback_outcome. intros ->.
  destruct (obj_get "callback" (merged options)) as [| | | | | | |c []];
    simpl; try done; by intros ->%negb_true_iff.
Qed.

Lemma callback_fails_outcome self options :
  this_options self = merged options → callback_returns options = false →
  ∃ err, callback_outcome self = Throw err.
Proof.
  unfold callback_returns, callback_outcome. intros ->.
  destruct (obj_get "callback" (merged options)) as [| | | | | | |c []];
    simpl; try done; intros H;
    try (apply negb_false_iff in H; rewrite H); by eexists.
Qed.





(** ** Removing and destroying *)

(** The element after [remove]: the saved content and style are written
    back where a value was saved; a saved [undefined] writes nothing. *)
Definition restored (self : instance) (el : element) : element :=
  {| el_style := match _styles self with Some s => Some s | None => el_style el end;
     el_html := default (el_html el) (_content self);
     el_data := el_data el |}.

Lemma alter_insert {A} (f : A → A) i (l : list A) x :
  l !! i = Some x → alter f i l = <[i := f x]> l.
Proof.
  intros Hx. apply list_eq. intros j. destruct (decide (i = j)) as [<-|Hne].
  - rewrite list_lookup_alter_eq, Hx, list_lookup_insert_eq; [done|].
    by eapply lookup_lt_Some.
  - by rewrite list_lookup_alter_ne, list_lookup_insert_ne.
Qed.

Lemma remove_run w this self el :
  instances (page w) !! this = Some self →
  elements (page w) !! this_element self = Some el →
  ∃ w', Plugin.remove this w = (Ret tt, w') ∧
    loader w' = loader w ∧ api w' = api w ∧
    instances (page w') = instances (page w) ∧
    resized_handlers (page w') = resized_handlers (page w) ∧
    elements (page w') =
      <[this_element self := restored self el]> (elements (page w)).
Proof.
  intros Hs He. unfold Plugin.remove.
  rewrite run_bind, (run_deref_instance _ _ _ Hs). simpl.
  unfold jq_set_html, jq_set_attr_style, update_element, restored,
    deref_element, modify.
  destruct (_content self) as [c|], (_styles self) as [s|];
    repeat first [rewrite run_bind | rewrite He | rewrite list_lookup_alter_eq
                 | progress simpl].
  - eexists. split; [reflexivity|]. simpl. repeat split.
    rewrite list_alter_alter_eq. by rewrite (alter_insert _ _ _ el).
  - eexists. split; [reflexivity|]. simpl. repeat split.
    by rewrite (alter_insert _ _ _ el).
  - eexists. split; [reflexivity|]. simpl. repeat split.
    by rewrite (alter_insert _ _ _ el).
  - exists w. repeat split. symmetry. apply list_insert_id.
    rewrite He. by destruct el.
Qed.

Lemma destroy_run w this self el :
  instances (page w) !! this = Some self →
  elements (page w) !! this_element self = Some el →
  ∃ w', Plugin.destroy this w = (Ret tt, w') ∧
    loader w' = loader w ∧ api w' = api w ∧
    instances (page w') = instances (page w) ∧
    resized_handlers (page w') = resized_handlers (page w) ∧
    elements (page w') =
      <[this_element self := with_data None (restored self el)]>
        (elements (page w)).
Proof.
  intros Hs He. unfold Plugin.destroy.
  destruct (remove_run w this self el Hs He)
    as (w1 & Hr & Hl & Ha & Hi & Hh & Hel).
  rewrite run_bind, Hr. simpl.
  rewrite run_bind, (run_deref_instance _ _ self) by (by rewrite Hi).
  simpl. eexists. split; [reflexivity|]. simpl. repeat split; try done.
  rewrite Hel.
  rewrite (alter_insert _ _ _ (restored self el)).
  - by rewrite list_insert_insert_eq.
  - apply list_lookup_insert_eq. by eapply lookup_lt_Some.
Qed.

(** The map the API renders into the container sets the container's
    style. *)
Definition rendered : event :=
  DomWrite 0 (Some "position: relative; overflow: hidden;")
    "<div class=gm-style></div>".

(** C9 at the failing input.  A container without a [style] attribute gets
    a map; [remove] then writes the saved content back, but the saved style
    is [undefined], the call of [attr] writes nothing, and the style the
    map gave the container stays.  The instance stays in the data. *)
Theorem remove_keeps_style_of_unstyled_container :
  _styles <$>
    instances (page (run (start [div])
      [ScriptLoaded; Call (selected [0]) (VObj []); rendered])) !! 0
    = Some None ∧
  elements (page (run (start [div])
    [ScriptLoaded; Call (selected [0]) (VObj []); rendered;
     Call (selected [0]) (VStr "remove")])) !! 0 =
  Some {| el_style := Some "position: relative; overflow: hidden;";
          el_html := "Loading map"; el_data := Some 0 |}.
Proof. split; vm_compute; reflexivity. Qed.

(** ** Retrieving instances *)

(** An instance exists on the one element of the page. *)
Definition one_map : world :=
  run (start [div]) [ScriptLoaded; Call (selected [0]) (VObj [])].

(** C6 at the failing input.  The element's data holds instance 0, and
    the method called with ['instance'] returns the collection, as after any
    unknown command; the branch that returns instances reads the [options]
    property of the collection, and what it returns is the data stored for
    the collection object, not for its elements. *)
Theorem instance_word_returns_collection :
  el_data <$> elements (page one_map) !! 0 = Some (Some 0) ∧
  fn_googleMaps (selected [0]) (VStr "instance") one_map =
    (Ret (RCollection (selected [0])), one_map) ∧
  fn_googleMaps
    {| jq_elems := [0]; jq_options := VStr "instance"; jq_own_data := None |}
    VUndefined one_map = (Ret (RData None), one_map).
Proof. split_and!; vm_compute; reflexivity. Qed.

(** ** Subscriptions to the resize signal *)

(** What of an instance only [draw] changes, and what of the page the
    subscriptions depend on. *)
Definition core (self : instance)
  : nat * js_object * option nat * option nat :=
  (this_element self, this_options self, this_map self, this_bounds self).
Definition shape (w : world)
  : nat * list nat * list (nat * js_object * option nat * option nat) :=
  (length (elements (page w)), resized_handlers (page w),
   core <$> instances (page w)).

(** Every instance sits on an element of the page; every handler belongs
    to an instance that has a map; every responsive instance that has a map
    and whose points [$.each] can visit, so that the draw that gave it the
    map went on, has a handler. *)
Definition subscribed (w : world) : Prop :=
  (∀ k self, instances (page w) !! k = Some self →
     this_element self < length (elements (page w))) ∧
  (∀ h, h ∈ resized_handlers (page w) →
     ∃ self, instances (page w) !! h = Some self ∧ is_Some (this_map self)) ∧
  (∀ k self, instances (page w) !! k = Some self →
     truthy (obj_get "responsive" (this_options self)) = true →
     iterable (obj_get "points" (this_options self)) = true →
     is_Some (this_map self) → k ∈ resized_handlers (page w)).

Lemma shape_lookup w w' k self' :
  shape w' = shape w → instances (page w') !! k = Some self' →
  ∃ self, instances (page w) !! k = Some self ∧ core self = core self'.
Proof.
  unfold shape. intros [= _ _ Hc] Hk.
  assert ((core <$> instances (page w)) !! k = Some (core self')) as H.
  { rewrite <- Hc, list_lookup_fmap, Hk. done. }
  rewrite list_lookup_fmap in H.
  destruct (instances (page w) !! k) as [self|]; [|done].
  exists self. split; [done|]. simpl in H. congruence.
Qed.

Lemma shape_subscribed w w' : shape w' = shape w → subscribed w → subscribed w'.
Proof.
  intros Hsh (Ha & Hb & Hc). pose proof Hsh as [= Hlen Hh _]. split; [|split].
  - intros k self' Hk.
    destruct (shape_lookup _ _ _ _ Hsh Hk) as (self & Hs & [= He _ _ _]).
    rewrite Hlen, <- He. by eapply Ha.
  - intros h Hin. rewrite Hh in Hin. destruct (Hb h Hin) as (self & Hs & Hm).
    symmetry in Hsh.
    destruct (shape_lookup _ _ _ _ Hsh Hs) as (self' & Hs' & [= _ _ Hm' _]).
    exists self'. split; [done|]. by rewrite Hm'.
  - intros k self' Hk Hr Hpts Hm.
    destruct (shape_lookup _ _ _ _ Hsh Hk) as (self & Hs & [= _ Ho Hm' _]).
    rewrite Hh. eapply Hc; [done|by rewrite Ho|by rewrite Ho|by rewrite Hm'].
Qed.

Lemma shape_update_instance this f :
  (∀ self, core (f self) = core self) →
  preserves (agree shape) (update_instance this f).
Proof.
  intros Hf w. unfold agree, shape. simpl. f_equal.
  rewrite (list_fmap_alter _ _ id).
  - by apply list_alter_id.
  - apply Forall_forall. intros self _. apply Hf.
Qed.

Lemma shape_update_element e f : preserves (agree shape) (update_element e f).
Proof. intros w. unfold agree, shape. simpl. by rewrite length_alter. Qed.

Ltac shape_leaf :=
  first [ by apply shape_update_instance
        | apply shape_update_element
        | by apply zoom_api_only
        | by apply insertPoint_api_only
        | intros ?; reflexivity ].

Lemma remove_shape this : preserves (agree shape) (Plugin.remove this).
Proof.
  unfold Plugin.remove, jq_set_html, jq_set_attr_style.
  repeat preserves_step; shape_leaf.
Qed.

Lemma destroy_shape this : preserves (agree shape) (Plugin.destroy this).
Proof.
  unfold Plugin.destroy, jq_removeData.
  repeat preserves_step; first [apply remove_shape|shape_leaf].
Qed.

Lemma run_listener_shape l : preserves (agree shape) (run_listener l).
Proof. unfold run_listener, log. repeat preserves_step; shape_leaf. Qed.

Lemma bounds_changed_shape m : preserves (agree shape) (bounds_changed m).
Proof.
  unfold bounds_changed. repeat preserves_step. apply run_listener_shape.
Qed.

Lemma marker_clicked_shape k : preserves (agree shape) (marker_clicked k).
Proof. unfold marker_clicked, log. repeat preserves_step; shape_leaf. Qed.

Lemma trigger_resized_shape : preserves (agree shape) trigger_resized.
Proof. unfold trigger_resized. repeat preserves_step. shape_leaf. Qed.

Lemma window_resize_shape : preserves (agree shape) window_resize.
Proof.
  unfold window_resize. repeat preserves_step; [|shape_leaf].
  intros w. unfold agree, shape. simpl. by destruct (resizeTimer (page w)).
Qed.

Lemma timer_fires_shape t : preserves (agree shape) (timer_fires t).
Proof.
  unfold timer_fires.
  repeat preserves_step; first [apply trigger_resized_shape|shape_leaf].
Qed.

Lemma dom_write_shape e style html :
  preserves (agree shape) (dom_write e style html).
Proof. unfold dom_write. shape_leaf. Qed.

Lemma shape_keeps {A} (m : M A) :
  preserves (agree shape) m → preserves (keeps subscribed) m.
Proof. intros H w Hw. eapply shape_subscribed; [apply H|done]. Qed.

Lemma draw_subscribed this : preserves (keeps subscribed) (Plugin.draw this).
Proof.
  intros w (Ha & Hb & Hc).
  destruct (google_defined (loader w)) eqn:Hg;
    [destruct (instances (page w) !! this) as [self|] eqn:Hs|];
    [destruct (iterable (obj_get "points" (this_options self))) eqn:Hpts|..].
  - destruct (draw_run w this self Hg Hs Hpts) as (w' & -> & _ & Hp & _).
    simpl. unfold subscribed. rewrite Hp. simpl. split; [|split].
    + intros k self' Hk. destruct (decide (k = this)) as [->|Hne].
      * rewrite list_lookup_alter_eq, Hs in Hk. injection Hk as <-.
        simpl. by eapply Ha.
      * rewrite list_lookup_alter_ne in Hk by done. by eapply Ha.
    + intros h Hin. destruct (decide (h = this)) as [->|Hne].
      * rewrite list_lookup_alter_eq, Hs. simpl. eexists. split; [done|].
        by eexists.
      * rewrite list_lookup_alter_ne by done. apply Hb.
        apply elem_of_app in Hin as [Hin|Hin]; [done|].
        unfold subscription in Hin.
        destruct (truthy _).
        -- by apply list_elem_of_singleton in Hin.
        -- by apply not_elem_of_nil in Hin.
    + intros k self' Hk Hr Hit Hm. apply elem_of_app.
      destruct (decide (k = this)) as [->|Hne].
      * rewrite list_lookup_alter_eq, Hs in Hk. injection Hk as <-.
        right. unfold subscription. simpl in Hr. rewrite Hr. by left.
      * rewrite list_lookup_alter_ne in Hk by done. left. by eapply Hc.
  - rewrite (draw_stops_at_points w this self Hg Hs Hpts).
    simpl. unfold subscribed. simpl. split; [|split].
    + intros k self' Hk. destruct (decide (k = this)) as [->|Hne].
      * rewrite list_lookup_alter_eq, Hs in Hk. injection Hk as <-.
        simpl. by eapply Ha.
      * rewrite list_lookup_alter_ne in Hk by done. by eapply Ha.
    + intros h Hin. destruct (decide (h = this)) as [->|Hne].
      * rewrite list_lookup_alter_eq, Hs. simpl. eexists. split; [done|].
        by eexists.
      * rewrite list_lookup_alter_ne by done. by apply Hb.
    + intros k self' Hk Hr Hit Hm.
      destruct (decide (k = this)) as [->|Hne].
      * rewrite list_lookup_alter_eq, Hs in Hk. injection Hk as <-.
        simpl in Hit. congruence.
      * rewrite list_lookup_alter_ne in Hk by done. by eapply Hc.
  - destruct (draw_fails w this) as [e ->]; [by right|done].
  - destruct (draw_fails w this) as [e ->]; [by left|done].
Qed.

Lemma on_loader_subscribed f w : subscribed w → subscribed (on_loader f w).
Proof. done. Qed.

Lemma load_subscribed this : preserves (keeps subscribed) (Plugin.load this).
Proof.
  unfold Plugin.load, jq_getScript.
  repeat preserves_step; try apply draw_subscribed;
    intros w Hw; by apply on_loader_subscribed.
Qed.

Lemma constructed_subscribed w e options el :
  elements (page w) !! e = Some el →
  subscribed w → subscribed (constructed e options el w).
Proof.
  intros He (Ha & Hb & Hc). unfold subscribed. simpl. split; [|split].
  - intros k self Hk. apply lookup_app_Some in Hk as [Hk|[_ Hk]].
    + by eapply Ha.
    + apply list_lookup_singleton_Some in Hk as [_ <-]. simpl.
      by eapply lookup_lt_Some.
  - intros h Hin. destruct (Hb h Hin) as (self & Hs & Hm).
    exists self. split; [|done]. by apply lookup_app_l_Some.
  - intros k self Hk Hr Hit Hm. apply lookup_app_Some in Hk as [Hk|[_ Hk]].
    + by eapply Hc.
    + apply list_lookup_singleton_Some in Hk as [_ <-]. simpl in Hm.
      by destruct Hm.
Qed.

Lemma apply_to_subscribed options e :
  preserves (keeps subscribed) (apply_to options e).
Proof.
  intros w Hw. unfold apply_to, jq_data.
  rewrite !run_bind. unfold deref_element.
  destruct (elements (page w) !! e) as [el|] eqn:He; [|done]. simpl.
  assert (subscribed (exec (i ← Plugin.new e options; jq_set_data e i) w))
    as Hnew.
  { unfold exec. rewrite run_bind, new_unfold, He, run_bind.
    pose proof (load_subscribed (length (instances (page w)))
                  (constructed e options el w)
                  (constructed_subscribed _ _ _ _ He Hw)) as Hload.
    destruct (Plugin.load _ _) as [[[]|?] w1]; simpl in *; [|done].
    eapply shape_subscribed; [|exact Hload].
    unfold shape. simpl. by rewrite length_alter. }
  destruct options, (el_data el); try done;
    repeat (destruct (String.eqb _ _)); try done;
    first [ by apply draw_subscribed
          | by apply (shape_keeps _ (remove_shape _))
          | by apply (shape_keeps _ (destroy_shape _)) ].
Qed.

Lemma step_subscribed w ev : subscribed w → subscribed (step w ev).
Proof.
  intros Hw. destruct ev; simpl; unfold exec.
  - revert Hw. generalize w. change (preserves (keeps subscribed)
      (fn_googleMaps c options)).
    unfold fn_googleMaps. repeat preserves_step. apply apply_to_subscribed.
  - revert Hw. generalize w. change (preserves (keeps subscribed) script_loaded).
    unfold script_loaded, googleMapsInit. repeat preserves_step;
      try apply draw_subscribed. intros w' Hw'. by apply on_loader_subscribed.
  - by apply (shape_keeps _ (bounds_changed_shape m)).
  - by apply (shape_keeps _ (marker_clicked_shape k)).
  - by apply (shape_keeps _ window_resize_shape).
  - by apply (shape_keeps _ (timer_fires_shape t)).
  - by apply (shape_keeps _ (dom_write_shape e style html)).
  - apply (shape_keeps other_script); [|done]. intros w'. reflexivity.
Qed.

Lemma run_subscribed dom evs : subscribed (run (start dom) evs).
Proof.
  assert (∀ w, subscribed w → subscribed (run w evs)) as H.
  { induction evs as [|ev evs IH]; intros w Hw; [done|].
    apply IH. by apply step_subscribed. }
  apply H. unfold subscribed. simpl. split; [|split].
  - intros k self Hk. by rewrite lookup_nil in Hk.
  - intros h Hin. by apply not_elem_of_nil in Hin.
  - intros k self Hk. by rewrite lookup_nil in Hk.
Qed.

(** The calls [zoom] makes for the handler of the instance [h]. *)
Definition calls_of (w : world) (h : nat) : list ext_call :=
  match instances (page w) !! h with
  | Some self =>
      match this_map self with
      | Some m => viewport_calls self m
      | None => []
      end
  | None => []
  end.

(** The resize signal, when every handler's instance has its map: each
    handler runs [zoom], in the order of subscription. *)
Lemma zoom_all hs w :
  (∀ h, h ∈ hs →
     ∃ self, instances (page w) !! h = Some self ∧ is_Some (this_map self)) →
  ∃ w', each hs Plugin.zoom w = (Ret tt, w') ∧ page w' = page w ∧
        trace (api w') = trace (api w) ++ concat (calls_of w <$> hs).
Proof.
  revert w. induction hs as [|h hs IH]; intros w Hall.
  { exists w. simpl. by rewrite app_nil_r. }
  destruct (Hall h) as (self & Hs & [m Hm]); [left|].
  destruct (IH (zoomed h self m w)) as (w' & Hr & Hp & Ht).
  { intros h' Hin. apply Hall. by right. }
  exists w'. split; [|split].
  - simpl. by rewrite run_bind, (zoom_run _ _ _ _ Hs Hm).
  - by rewrite Hp.
  - rewrite Ht. cbn [fmap list_fmap concat].
    assert (calls_of w h = viewport_calls self m) as ->
      by (unfold calls_of; by rewrite Hs, Hm).
    change (trace (api (zoomed h self m w)))
      with (trace (api w) ++ viewport_calls self m).
    by rewrite <- app_assoc.
Qed.

Lemma resized_after w w1 this self m :
  subscribed w →
  instances (page w) !! this = Some self →
  truthy (obj_get "responsive" (this_options self)) = true →
  iterable (obj_get "points" (this_options self)) = true →
  this_map self = Some m →
  instances (page w1) = instances (page w) →
  resized_handlers (page w1) = resized_handlers (page w) →
  api w1 = api w →
  this ∈ resized_handlers (page w1) ∧
  (trigger_resized w1).1 = Ret tt ∧
  ∃ before after,
    trace (api (exec trigger_resized w1)) =
    trace (api w) ++ before ++ viewport_calls self m ++ after.
Proof.
  intros (_ & Hb & Hc) Hs Hr Hpts Hm Hi Hh Ha.
  assert (this ∈ resized_handlers (page w1)) as Hin.
  { rewrite Hh. eapply Hc; [done|done|done|by eexists]. }
  split; [done|].
  destruct (zoom_all (resized_handlers (page w1)) w1) as (w2 & Hrun & _ & Ht).
  { intros h Hin'. rewrite Hi. apply Hb. by rewrite <- Hh. }
  unfold exec, trigger_resized. rewrite run_bind. simpl. rewrite Hrun. simpl.
  split; [done|].
  apply list_elem_of_split in Hin as (l1 & l2 & Hsplit).
  exists (concat (calls_of w1 <$> l1)), (concat (calls_of w1 <$> l2)).
  rewrite Ht, Hsplit, Ha, fmap_app, concat_app. cbn [fmap list_fmap concat].
  assert (calls_of w1 this = viewport_calls self m) as ->
    by (unfold calls_of; by rewrite Hi, Hs, Hm).
  done.
Qed.

(** C10. A responsive instance that has drawn, in any world reached from
    the start of the page: it has its map, and its points are such that
    [$.each] visits them, so that the draw went on to [zoom] and to the
    subscription.  [remove] returns and so does [destroy], neither takes the
    instance's handler off the window, and the next resize signal runs to
    its end and makes, among its calls, the calls of [zoom] on the map of
    that instance: [fitBounds], then [setCenter] and [setZoom] where the
    options ask for them. *)
Theorem resize_reaches_removed_instance (dom : list element)
    (evs : list event) (this : inst_id) (self : instance) (m : map_id) :
  instances (page (run (start dom) evs)) !! this = Some self →
  truthy (obj_get "responsive" (this_options self)) = true →
  iterable (obj_get "points" (this_options self)) = true →
  this_map self = Some m →
  ((Plugin.remove this (run (start dom) evs)).1 = Ret tt ∧
   this ∈ resized_handlers
            (page (exec (Plugin.remove this) (run (start dom) evs))) ∧
   (trigger_resized (exec (Plugin.remove this) (run (start dom) evs))).1
     = Ret tt ∧
   ∃ before after,
     trace (api (exec trigger_resized
                   (exec (Plugin.remove this) (run (start dom) evs)))) =
     trace (api (run (start dom) evs)) ++
     before ++ viewport_calls self m ++ after) ∧
  ((Plugin.destroy this (run (start dom) evs)).1 = Ret tt ∧
   this ∈ resized_handlers
            (page (exec (Plugin.destroy this) (run (start dom) evs))) ∧
   (trigger_resized (exec (Plugin.destroy this) (run (start dom) evs))).1
     = Ret tt ∧
   ∃ before after,
     trace (api (exec trigger_resized
                   (exec (Plugin.destroy this) (run (start dom) evs)))) =
     trace (api (run (start dom) evs)) ++
     before ++ viewport_calls self m ++ after).
Proof.
  intros Hs Hr Hpts Hm.
  pose proof (run_subscribed dom evs) as Hsub.
  set (w := run (start dom) evs) in *.
  destruct Hsub as (Ha & Hb & Hc).
  destruct (lookup_lt_is_Some_2 (elements (page w)) (this_element self))
    as [el He]; [by eapply Ha|].
  split.
  - destruct (remove_run w this self el Hs He)
      as (w1 & Hrun & _ & Hapi & Hi & Hh & _).
    unfold exec. rewrite Hrun. simpl. split; [done|].
    by eapply resized_after.
  - destruct (destroy_run w this self el Hs He)
      as (w1 & Hrun & _ & Hapi & Hi & Hh & _).
    unfold exec. rewrite Hrun. simpl. split; [done|].
    by eapply resized_after.
Qed.

(** * Instances of the theorems *)

(** A point at latitude zero. *)
Definition on_equator : jsval :=
  VObj [("lat", VNum 0); ("lng", VNum 20); ("marker", VBool true)].

(** A point with both coordinates and a title. *)
Definition point_a : jsval :=
  VObj [("lat", VNum 10); ("lng", VNum 20); ("marker", VBool true);
        ("title", VStr "A")].

(** A responsive map with a zoom level, drawn. *)
Definition responsive_map : world :=
  run (start [div])
    [ScriptLoaded;
     Call (selected [0]) (VObj [("responsive", VBool true); ("zoom", VNum 5)])].

Lemma insertPoint_drops_invalid_point_witness :
  truthy (prop on_equator "lat") = false ∧
  Plugin.insertPoint 0 on_equator one_map = (Ret tt, one_map).
Proof.
  split; [reflexivity|].
  apply (insertPoint_drops_invalid_point one_map 0 on_equator).
  left. reflexivity.
Defined.

Lemma insertPoint_extends_bounds_witness :
  boundses (api one_map) !! 0 = Some [] ∧
  boundses (api (exec (Plugin.insertPoint 0 point_a) one_map)) !! 0 =
  Some [{| lat := VNum 10; lng := VNum 20 |}].
Proof.
  split; [reflexivity|].
  assert (∃ self, instances (page one_map) !! 0 = Some self ∧
                  this_bounds self = Some 0) as (self & Hs & Hb).
  { eexists. split; vm_compute; reflexivity. }
  apply (proj1 (proj2
    (insertPoint_extends_bounds one_map 0 self 0 [] point_a
       eq_refl Hs Hb eq_refl eq_refl eq_refl))).
Defined.

(** A map with a zoom level, drawn and not yet notified. *)
Definition zoom_map : world :=
  run (start [div]) [ScriptLoaded; Call (selected [0]) zoom5].

Lemma reapplied_at_most_once_witness :
  map_listeners <$> maps (api (exec (Plugin.draw 0) zoom_map)) !! 1 =
    Some [ZoomListener 0 (VNum 5)] ∧
  ∃ calls,
    trace (api (run (exec (Plugin.draw 0) zoom_map)
                  (replicate 3 (BoundsChanged (length (maps (api zoom_map))))))) =
    trace (api (exec (Plugin.draw 0) zoom_map)) ++ calls ∧
    count is_SetCenter calls ≤ 1 ∧ count is_SetZoom calls ≤ 1.
Proof.
  split; [vm_compute; reflexivity|].
  assert (∃ self, google_defined (loader zoom_map) = true ∧
                  instances (page zoom_map) !! 0 = Some self)
    as (self & Hg & Hs).
  { eexists. split; vm_compute; reflexivity. }
  exact (proj1 reapplied_at_most_once zoom_map 0 self 3 Hg Hs).
Defined.

Lemma script_requested_once_witness :
  loader (exec (Plugin.new 0 (VObj [("key", VStr "k")])) (start [div])) =
  {| google_defined := false; Plugin_loaded := true;
     window_googleMaps := Some [0];
     script_requests := [{| url_fixed := api_url; url_key := VStr "k" |}] |}.
Proof.
  apply (proj1 (proj2 script_requested_once) (start [div]) 0 div
           (VObj [("key", VStr "k")])); reflexivity.
Defined.


Lemma resize_reaches_removed_instance_witness :
  this_map <$> instances (page responsive_map) !! 0 = Some (Some 0) ∧
  0 ∈ resized_handlers (page (exec (Plugin.destroy 0) responsive_map)) ∧
  (trigger_resized (exec (Plugin.destroy 0) responsive_map)).1 = Ret tt.
Proof.
  split; [vm_compute; reflexivity|].
  unfold responsive_map.
  assert (∃ self,
            instances (page (run (start [div])
              [ScriptLoaded;
               Call (selected [0])
                 (VObj [("responsive", VBool true); ("zoom", VNum 5)])])) !! 0
              = Some self ∧
            truthy (obj_get "responsive" (this_options self)) = true ∧
            iterable (obj_get "points" (this_options self)) = true ∧
            this_map self = Some 0) as (self & Hs & Hr & Hpts & Hm).
  { eexists. split_and!; vm_compute; reflexivity. }
  destruct (proj2 (resize_reaches_removed_instance [div]
    [ScriptLoaded;
     Call (selected [0]) (VObj [("responsive", VBool true); ("zoom", VNum 5)])]
    0 self 0 Hs Hr Hpts Hm)) as (_ & Hin & Hret & _).
  split; [exact Hin|exact Hret].
Defined.


(** * Further properties of the plugin *)

(** ** The marker of a point *)

(** A property of the point after the merge over the defaults. *)
Definition point_option (options : jsval) (k : string) : jsval :=
  obj_get k (jq_extend point_defaults options).

(** The marker [insertPoint] builds for a point: on the instance's map, at
    the point's location, with the icon when [marker] is a string, the title
    when there is one, and the listener that opens the info window [info]
    when the point has one. *)
Definition marker_of (this : inst_id) (self : instance) (options : jsval)
    (info : info_id) : marker_obj :=
  {| marker_map := this_map self;
     marker_position := location_of options;
     marker_icon :=
       match point_option options "marker" with
       | VStr url => Some url
       | _ => None
       end;
     marker_title :=
       if truthy (point_option options "title")
       then Some (point_option options "title") else None;
     marker_click :=
       if truthy (point_option options "infoWindow")
       then [(info, this)] else [] |}.

Lemma alter_last {A} (f : A → A) (l : list A) (x : A) :
  alter f (length l) (l ++ [x]) = l ++ [f x].
Proof. rewrite alter_app_r_alt by done. by rewrite Nat.sub_diag. Qed.

Lemma insertPoint_marker_run w this self b options :
  google_defined (loader w) = true →
  instances (page w) !! this = Some self →
  this_bounds self = Some b →
  truthy (prop options "lat") = true →
  truthy (prop options "lng") = true →
  markers (api (exec (Plugin.insertPoint this options) w)) =
    markers (api w) ++
    (if truthy (point_option options "marker")
     then [marker_of this self options (length (infoWindows (api w)))]
     else []) ∧
  infoWindows (api (exec (Plugin.insertPoint this options) w)) =
    infoWindows (api w) ++
    (if truthy (point_option options "marker")
        && truthy (point_option options "infoWindow")
     then [point_option options "infoWindow"] else []).
Proof.
  intros Hg Hs Hb Hlat Hlng. unfold exec, Plugin.insertPoint. cbv zeta.
  rewrite !point_truthy by reflexivity. rewrite Hlat, Hlng. simpl.
  rewrite (point_coordinate _ "lat"), (point_coordinate _ "lng") by done.
  fold (location_of options).
  rewrite <- !(point_truthy options) by reflexivity.
  fold (point_option options "marker") (point_option options "title")
    (point_option options "infoWindow").
  unfold new_LatLng. rewrite !run_bind. rewrite (run_google _ Hg). simpl.
  rewrite run_bind, (run_the_bounds _ _ _ _ Hs Hb). simpl.
  rewrite run_bind. unfold bounds_extend at 1. simpl.
  unfold marker_of.
  destruct (truthy (point_option options "marker")) eqn:Hmk; simpl;
    [|by rewrite !app_nil_r].
  rewrite run_bind, (run_deref_instance _ _ self) by done. simpl.
  unfold new_Marker, new_InfoWindow, marker_setIcon, marker_setTitle,
    marker_addListener, update_marker, modify.
  rewrite !run_bind, run_google by done. simpl.
  destruct (truthy (point_option options "title")),
    (truthy (point_option options "infoWindow"));
    destruct (point_option options "marker");
    repeat first [rewrite run_bind | rewrite run_google by done
                 | progress simpl];
    rewrite ?alter_last, ?app_nil_r; simpl; rewrite ?alter_last; done.
Qed.

(** The marker part of [insertPoint] (X1).  For a point with coordinates,
    a falsy [marker] adds neither a marker nor an info window, whatever
    [title] and [infoWindow] say; a truthy one adds exactly one marker, on
    the instance's map at the point's location, with the icon when [marker]
    is a string and the title when it is truthy, and an info window only
    when [infoWindow] is truthy. *)
Theorem insertPoint_adds_one_marker (w : world) (this : inst_id)
    (self : instance) (b : bounds_id) (options : jsval) :
  google_defined (loader w) = true →
  instances (page w) !! this = Some self →
  this_bounds self = Some b →
  truthy (prop options "lat") = true →
  truthy (prop options "lng") = true →
  markers (api (exec (Plugin.insertPoint this options) w)) =
    markers (api w) ++
    (if truthy (point_option options "marker")
     then [marker_of this self options (length (infoWindows (api w)))]
     else []) ∧
  infoWindows (api (exec (Plugin.insertPoint this options) w)) =
    infoWindows (api w) ++
    (if truthy (point_option options "marker")
        && truthy (point_option options "infoWindow")
     then [point_option options "infoWindow"] else []).
Proof. apply insertPoint_marker_run. Qed.

Lemma insertPoint_adds_one_marker_witness :
  markers (api (exec (Plugin.insertPoint 0 point_a) one_map)) =
  [{| marker_map := Some 0;
      marker_position := {| lat := VNum 10; lng := VNum 20 |};
      marker_icon := None; marker_title := Some (VStr "A");
      marker_click := [] |}].
Proof.
  assert (∃ self, instances (page one_map) !! 0 = Some self ∧
            this_bounds self = Some 0 ∧
            markers (api one_map) ++
              [marker_of 0 self point_a (length (infoWindows (api one_map)))] =
            [{| marker_map := Some 0;
                marker_position := {| lat := VNum 10; lng := VNum 20 |};
                marker_icon := None; marker_title := Some (VStr "A");
                marker_click := [] |}]) as (self & Hs & Hb & Hm).
  { eexists. split_and!; vm_compute; reflexivity. }
  pose proof (proj1 (insertPoint_adds_one_marker one_map 0 self 0 point_a
                       eq_refl Hs Hb eq_refl eq_refl)) as H.
  exact (eq_trans H Hm).
Defined.

(** A click on the marker of a point just inserted (X2): when the point
    has an info window, the click opens that window, on the instance's map
    and anchored to the marker, and does nothing else; when it has none, the
    click does nothing. *)
Theorem click_opens_the_points_window (w : world) (this : inst_id)
    (self : instance) (b : bounds_id) (options : jsval) :
  google_defined (loader w) = true →
  instances (page w) !! this = Some self →
  this_bounds self = Some b →
  truthy (prop options "lat") = true →
  truthy (prop options "lng") = true →
  truthy (point_option options "marker") = true →
  marker_clicked (length (markers (api w)))
    (exec (Plugin.insertPoint this options) w) =
  (Ret tt,
   if truthy (point_option options "infoWindow")
   then on_api (λ a,
          with_trace
            (trace a ++ [InfoOpen (length (infoWindows (api w)))
                           (this_map self) (length (markers (api w)))]) a)
          (exec (Plugin.insertPoint this options) w)
   else exec (Plugin.insertPoint this options) w).
Proof.
  intros Hg Hs Hb Hlat Hlng Hmk.
  destruct (insertPoint_marker_run w this self b options) as [Hms _];
    try done.
  rewrite Hmk in Hms.
  assert (page (exec (Plugin.insertPoint this options) w) = page w) as Hp.
  { by apply (insertPoint_api_only page). }
  set (w' := exec (Plugin.insertPoint this options) w) in *.
  unfold marker_clicked. rewrite run_bind. simpl.
  rewrite Hms, list_lookup_middle by done. simpl.
  destruct (truthy (point_option options "infoWindow")); simpl; [|done].
  rewrite !run_bind, (run_deref_instance _ _ self) by (by rewrite Hp).
  reflexivity.
Qed.

(** A point with a custom icon and an info window. *)
Definition point_b : jsval :=
  VObj [("lat", VNum 10); ("lng", VNum 20); ("marker", VStr "pin.png");
        ("infoWindow", VStr "Hello")].

Lemma click_opens_the_points_window_witness :
  trace (api (exec (marker_clicked 0)
                (exec (Plugin.insertPoint 0 point_b) one_map))) =
  trace (api one_map) ++ [InfoOpen 0 (Some 0) 0].
Proof.
  assert (∃ self, instances (page one_map) !! 0 = Some self ∧
                  this_bounds self = Some 0 ∧ this_map self = Some 0)
    as (self & Hs & Hb & Hm).
  { eexists. split_and!; vm_compute; reflexivity. }
  pose proof (click_opens_the_points_window one_map 0 self 0 point_b
                eq_refl Hs Hb eq_refl eq_refl eq_refl) as H.
  change (length (markers (api one_map))) with 0 in H.
  unfold exec at 1. rewrite H, Hm. vm_compute. reflexivity.
Defined.

(** ** Calls of the method that change nothing *)

(** The commands the method knows. *)
Definition is_known (command : string) : bool :=
  String.eqb command "redraw" || String.eqb command "remove"
  || String.eqb command "destroy".

Lemma each_unchanged {A} (l : list A) (f : A → M unit) w :
  (∀ x, x ∈ l → f x w = (Ret tt, w)) → each l f w = (Ret tt, w).
Proof.
  induction l as [|x l IH]; intros Hf; simpl; [done|].
  rewrite run_bind, Hf by left. apply IH. intros y Hy. apply Hf. by right.
Qed.

Lemma apply_to_command_ignored w command e el :
  elements (page w) !! e = Some el →
  el_data el = None ∨ is_known command = false →
  apply_to (VStr command) e w = (Ret tt, w).
Proof.
  intros He Hc. unfold apply_to, jq_data.
  rewrite !run_bind, (run_deref_element _ _ _ He). simpl.
  destruct (el_data el) as [i|]; [|done].
  destruct Hc as [|Hc]; [done|]. unfold is_known in Hc.
  apply orb_false_iff in Hc as [[H1 H2]%orb_false_iff H3].
  by rewrite H1, H2, H3.
Qed.

Lemma apply_to_instance_exists w options e el i :
  elements (page w) !! e = Some el → el_data el = Some i →
  is_command options = false →
  apply_to options e w = (Ret tt, w).
Proof.
  intros He Hd Hc. unfold apply_to, jq_data.
  rewrite !run_bind, (run_deref_element _ _ _ He). simpl. rewrite Hd.
  by destruct options.
Qed.

(** A command where there is nothing to command (X3): on elements that
    carry no instance any command, and on any elements a command the method
    does not know, returns the collection and leaves the world as it is. *)
Theorem command_without_effect (w : world) (c : jquery) (command : string) :
  is_instance_word (jq_options c) = false →
  (∀ e, e ∈ jq_elems c →
     ∃ el, elements (page w) !! e = Some el ∧
           (el_data el = None ∨ is_known command = false)) →
  fn_googleMaps c (VStr command) w = (Ret (RCollection c), w).
Proof.
  intros Hc Hall. unfold fn_googleMaps. rewrite Hc, run_bind.
  rewrite each_unchanged; [done|].
  intros e He. destruct (Hall e He) as (el & Hel & Hd).
  by eapply apply_to_command_ignored.
Qed.

Lemma command_without_effect_witness :
  fn_googleMaps (selected [0]) (VStr "redraw") (start [div]) =
    (Ret (RCollection (selected [0])), start [div]) ∧
  fn_googleMaps (selected [0]) (VStr "refresh") one_map =
    (Ret (RCollection (selected [0])), one_map).
Proof.
  split.
  - apply (command_without_effect (start [div]) (selected [0]) "redraw");
      [reflexivity|].
    intros e ->%list_elem_of_singleton. exists div. split; [reflexivity|].
    by left.
  - apply (command_without_effect one_map (selected [0]) "refresh");
      [reflexivity|].
    intros e ->%list_elem_of_singleton. eexists.
    split; [vm_compute; reflexivity|]. by right.
Defined.

(** Constructing twice (X4): on elements that already carry an instance, a
    call with options that are not a command returns the collection and
    leaves the world as it is; the new options are dropped. *)
Theorem second_construction_ignored (w : world) (c : jquery)
    (options : jsval) :
  is_instance_word (jq_options c) = false →
  is_command options = false →
  (∀ e, e ∈ jq_elems c →
     ∃ el i, elements (page w) !! e = Some el ∧ el_data el = Some i) →
  fn_googleMaps c options w = (Ret (RCollection c), w).
Proof.
  intros Hc Ho Hall. unfold fn_googleMaps. rewrite Hc, run_bind.
  rewrite each_unchanged; [done|].
  intros e He. destruct (Hall e He) as (el & i & Hel & Hd).
  by eapply apply_to_instance_exists.
Qed.

Lemma second_construction_ignored_witness :
  fn_googleMaps (selected [0]) zoom5 one_map =
  (Ret (RCollection (selected [0])), one_map).
Proof.
  apply (second_construction_ignored one_map (selected [0]) zoom5);
    [reflexivity|reflexivity|].
  intros e ->%list_elem_of_singleton. eexists _, 0.
  split; vm_compute; reflexivity.
Defined.

(** ** Methods called too early *)

(** Before the API is there (X5): [draw] throws and has changed nothing,
    a [ReferenceError] while there is no global [google] and a [TypeError]
    while the [google] of another script has no [maps]; and so does the
    command [redraw] on an element whose instance is still waiting in the
    queue. *)
Theorem draw_before_api_throws (w : world) (this : inst_id) (self : instance) :
  google_defined (loader w) = false →
  instances (page w) !! this = Some self →
  Plugin.draw this w =
    (Throw (if google_without_maps (page w) then TypeError
            else ReferenceError), w) ∧
  (∀ e el, elements (page w) !! e = Some el → el_data el = Some this →
     fn_googleMaps (selected [e]) (VStr "redraw") w =
     (Throw (if google_without_maps (page w) then TypeError
             else ReferenceError), w)).
Proof.
  intros Hg Hs. fold (missing_api w).
  assert (Plugin.draw this w = (Throw (missing_api w), w)) as Hdraw.
  { unfold Plugin.draw, Plugin.draw_begin, new_Map.
    rewrite !run_bind, (run_deref_instance _ _ _ Hs). simpl.
    by rewrite !run_bind, (run_google_missing _ Hg). }
  split; [done|]. intros e el He Hd.
  unfold fn_googleMaps. simpl. rewrite !run_bind.
  unfold apply_to, jq_data.
  rewrite !run_bind, (run_deref_element _ _ _ He). simpl.
  by rewrite Hd, Hdraw.
Qed.

(** An instance constructed before the API is there, waiting; and the same
    on a page where another script has defined [google]. *)
Definition waiting : world := run (start [div]) [Call (selected [0]) zoom5].
Definition waiting_beside : world :=
  run (start [div]) [OtherScript; Call (selected [0]) zoom5].

Lemma draw_before_api_throws_witness :
  fn_googleMaps (selected [0]) (VStr "redraw") waiting =
    (Throw ReferenceError, waiting) ∧
  fn_googleMaps (selected [0]) (VStr "redraw") waiting_beside =
    (Throw TypeError, waiting_beside).
Proof.
  assert (∃ self el, google_defined (loader waiting) = false ∧
            instances (page waiting) !! 0 = Some self ∧
            elements (page waiting) !! 0 = Some el ∧ el_data el = Some 0)
    as (self & el & Hg & Hs & He & Hd).
  { eexists _, _. split_and!; vm_compute; reflexivity. }
  assert (∃ self el, google_defined (loader waiting_beside) = false ∧
            instances (page waiting_beside) !! 0 = Some self ∧
            elements (page waiting_beside) !! 0 = Some el ∧
            el_data el = Some 0)
    as (self' & el' & Hg' & Hs' & He' & Hd').
  { eexists _, _. split_and!; vm_compute; reflexivity. }
  split.
  - exact (proj2 (draw_before_api_throws waiting 0 self Hg Hs) 0 el He Hd).
  - exact (proj2 (draw_before_api_throws waiting_beside 0 self' Hg' Hs')
             0 el' He' Hd').
Defined.

(** Before the first draw (X6): on an instance that has no map yet [zoom]
    throws a [TypeError], and when the API is there [insertPoint] of a point
    with coordinates throws one for the missing bounds; neither has changed
    anything. *)
Theorem methods_before_draw_throw (w : world) (this : inst_id)
    (self : instance) :
  instances (page w) !! this = Some self →
  (this_map self = None → Plugin.zoom this w = (Throw TypeError, w)) ∧
  (∀ options,
     this_bounds self = None → google_defined (loader w) = true →
     truthy (prop options "lat") = true →
     truthy (prop options "lng") = true →
     Plugin.insertPoint this options w = (Throw TypeError, w)).
Proof.
  intros Hs. split.
  - intros Hm. unfold Plugin.zoom, the_map. cbv zeta.
    rewrite !run_bind, (run_deref_instance _ _ _ Hs). simpl.
    rewrite !run_bind, (run_deref_instance _ _ _ Hs). simpl. by rewrite Hm.
  - intros options Hb Hg Hlat Hlng. unfold Plugin.insertPoint. cbv zeta.
    rewrite !point_truthy by reflexivity. rewrite Hlat, Hlng. simpl.
    unfold new_LatLng, the_bounds.
    rewrite !run_bind, (run_google _ Hg). simpl.
    rewrite !run_bind, (run_deref_instance _ _ _ Hs). simpl. by rewrite Hb.
Qed.

Lemma methods_before_draw_throw_witness :
  Plugin.zoom 0 waiting = (Throw TypeError, waiting).
Proof.
  assert (∃ self, instances (page waiting) !! 0 = Some self ∧
            this_map self = None) as (self & Hs & Hm).
  { eexists. split; vm_compute; reflexivity. }
  exact (proj1 (methods_before_draw_throw waiting 0 self Hs) Hm).
Defined.

(** ** What [zoom] and [draw] do *)

(** [zoom] on an instance that has its map (X7): it returns; it makes, in
    this order, [fitBounds] with the instance's bounds, [setCenter] when
    [center] is truthy and has both [lat] and [lng], [setZoom] when [zoom]
    is truthy; it appends one listener for each of the two to the listeners
    the map already has, removes none, and touches nothing else. *)
Theorem zoom_calls_and_listeners (w : world) (this : inst_id)
    (self : instance) (m : map_id) :
  instances (page w) !! this = Some self →
  this_map self = Some m →
  (Plugin.zoom this w).1 = Ret tt ∧
  loader (exec (Plugin.zoom this) w) = loader w ∧
  page (exec (Plugin.zoom this) w) = page w ∧
  trace (api (exec (Plugin.zoom this) w)) =
    trace (api w) ++ viewport_calls self m ∧
  map_listeners <$> maps (api (exec (Plugin.zoom this) w)) !! m =
    (λ mo, map_listeners mo ++ viewport_listeners this self)
      <$> maps (api w) !! m ∧
  (∀ m', m' ≠ m →
     maps (api (exec (Plugin.zoom this) w)) !! m' = maps (api w) !! m') ∧
  markers (api (exec (Plugin.zoom this) w)) = markers (api w) ∧
  boundses (api (exec (Plugin.zoom this) w)) = boundses (api w).
Proof.
  intros Hs Hm. unfold exec. rewrite (zoom_run _ _ _ _ Hs Hm). simpl.
  split_and!; try done.
  - rewrite list_lookup_alter_eq. by destruct (maps (api w) !! m).
  - intros m' Hne. by rewrite list_lookup_alter_ne.
Qed.

Lemma zoom_calls_and_listeners_witness :
  trace (api (exec (Plugin.zoom 0) responsive_map)) =
  trace (api responsive_map) ++ [FitBounds 0 (Some 0); SetZoom 0 (VNum 5)].
Proof.
  assert (∃ self, instances (page responsive_map) !! 0 = Some self ∧
            this_map self = Some 0 ∧
            viewport_calls self 0 = [FitBounds 0 (Some 0); SetZoom 0 (VNum 5)])
    as (self & Hs & Hm & Hv).
  { eexists. split_and!; vm_compute; reflexivity. }
  rewrite (proj1 (proj2 (proj2 (proj2
             (zoom_calls_and_listeners responsive_map 0 self 0 Hs Hm))))).
  by rewrite Hv.
Defined.

(** [draw] once the API is there (X8): it gives the instance a fresh map
    and fresh bounds, both new objects of the API, also on a redraw.  When
    [$.each] can visit the points, the map is built on the instance's
    element and carries the listeners of one run of [zoom]; a responsive
    instance gets one more resize handler at every draw; the calls are
    [setOptions], those of [zoom] and last the user's callback; and [draw]
    returns unless the callback is truthy and not a function, or a function
    that throws, and then the exception comes only after all of this is
    done.  When [$.each] cannot visit the points, [draw] ends there with a
    [TypeError]: the map and the bounds exist and are stored and
    [setOptions] was called, but the map has no listener, and there is no
    call of [zoom], no new resize handler and no call of the callback. *)
Theorem draw_effects (w : world) (this : inst_id) (self : instance) :
  google_defined (loader w) = true →
  instances (page w) !! this = Some self →
  loader (exec (Plugin.draw this) w) = loader w ∧
  elements (page (exec (Plugin.draw this) w)) = elements (page w) ∧
  instances (page (exec (Plugin.draw this) w)) =
    <[this := with_bounds (Some (length (boundses (api w))))
                (with_map (Some (length (maps (api w)))) self)]>
      (instances (page w)) ∧
  (iterable (obj_get "points" (this_options self)) = true →
   (Plugin.draw this w).1 = callback_outcome self ∧
   resized_handlers (page (exec (Plugin.draw this) w)) =
     resized_handlers (page w) ++ subscription this self ∧
   maps (api (exec (Plugin.draw this) w)) =
     maps (api w) ++
     [{| map_element := this_element self;
         map_listeners := viewport_listeners this self |}] ∧
   trace (api (exec (Plugin.draw this) w)) =
     trace (api w) ++
     SetOptions (length (maps (api w))) (obj_get "options" (this_options self))
     :: FitBounds (length (maps (api w))) (Some (length (boundses (api w))))
     :: (if center_given self
         then [SetCenter (length (maps (api w)))
                 (obj_get "center" (this_options self))] else [])
     ++ (if zoom_given self
         then [SetZoom (length (maps (api w)))
                 (obj_get "zoom" (this_options self))] else [])
     ++ callback_calls this self) ∧
  (iterable (obj_get "points" (this_options self)) = false →
   (Plugin.draw this w).1 = Throw TypeError ∧
   resized_handlers (page (exec (Plugin.draw this) w)) =
     resized_handlers (page w) ∧
   maps (api (exec (Plugin.draw this) w)) =
     maps (api w) ++
     [{| map_element := this_element self; map_listeners := [] |}] ∧
   trace (api (exec (Plugin.draw this) w)) =
     trace (api w) ++
     [SetOptions (length (maps (api w)))
        (obj_get "options" (this_options self))]).
Proof.
  intros Hg Hs.
  destruct (iterable (obj_get "points" (this_options self))) eqn:Hpts.
  - destruct (draw_run w this self Hg Hs Hpts)
      as (w' & Hr & Hl & Hp & Hm & Ht).
    unfold exec. rewrite Hr. simpl. rewrite Hp. simpl.
    split_and!; try done.
    + by rewrite (alter_insert _ _ _ self).
    + intros _. split_and!; try done.
      rewrite Ht. unfold viewport_calls. simpl. by rewrite <- app_assoc.
  - unfold exec. rewrite (draw_stops_at_points w this self Hg Hs Hpts).
    simpl. split_and!; try done.
    by rewrite (alter_insert _ _ _ self).
Qed.

(** A responsive instance whose points are a string, constructed when the
    API is there. *)
Definition pointless_map : world :=
  run (start [div])
    [ScriptLoaded;
     Call (selected [0])
       (VObj [("responsive", VBool true); ("points", VStr "51.5,-0.1")])].

Lemma draw_effects_witness :
  (resized_handlers (page (exec (Plugin.draw 0) responsive_map)) = [0; 0] ∧
   this_map <$> instances (page (exec (Plugin.draw 0) responsive_map)) !! 0 =
     Some (Some 1)) ∧
  ((Plugin.draw 0 pointless_map).1 = Throw TypeError ∧
   resized_handlers (page (exec (Plugin.draw 0) pointless_map)) = [] ∧
   this_map <$> instances (page (exec (Plugin.draw 0) pointless_map)) !! 0 =
     Some (Some 1)).
Proof.
  assert (∃ self, google_defined (loader responsive_map) = true ∧
            instances (page responsive_map) !! 0 = Some self ∧
            iterable (obj_get "points" (this_options self)) = true ∧
            resized_handlers (page responsive_map) ++ subscription 0 self =
              [0; 0] ∧
            this_map <$>
              <[0 := with_bounds (Some (length (boundses (api responsive_map))))
                       (with_map (Some (length (maps (api responsive_map))))
                          self)]> (instances (page responsive_map)) !! 0 =
              Some (Some 1))
    as (self & Hg & Hs & Hpts & Hsub & Hmap).
  { eexists. split_and!; vm_compute; reflexivity. }
  assert (∃ self, google_defined (loader pointless_map) = true ∧
            instances (page pointless_map) !! 0 = Some self ∧
            iterable (obj_get "points" (this_options self)) = false ∧
            resized_handlers (page pointless_map) = [] ∧
            this_map <$>
              <[0 := with_bounds (Some (length (boundses (api pointless_map))))
                       (with_map (Some (length (maps (api pointless_map))))
                          self)]> (instances (page pointless_map)) !! 0 =
              Some (Some 1))
    as (self' & Hg' & Hs' & Hpts' & Hsub' & Hmap').
  { eexists. split_and!; vm_compute; reflexivity. }
  destruct (draw_effects responsive_map 0 self Hg Hs)
    as (_ & _ & Hi & Hyes & _).
  destruct (Hyes Hpts) as (_ & Hh & _).
  destruct (draw_effects pointless_map 0 self' Hg' Hs')
    as (_ & _ & Hi' & _ & Hno).
  destruct (Hno Hpts') as (Hret' & Hh' & _).
  split; split_and!.
  - exact (eq_trans Hh Hsub).
  - rewrite Hi. exact Hmap.
  - exact Hret'.
  - exact (eq_trans Hh' Hsub').
  - rewrite Hi'. exact Hmap'.
Defined.

(** ** Constructing when the API is there *)

Lemma load_run_ready w this :
  google_defined (loader w) = true →
  Plugin.load this w = Plugin.draw this (on_loader (with_loaded true) w).
Proof.
  intros Hg. unfold Plugin.load. rewrite run_bind. simpl.
  rewrite ready_google_defined, Hg. by rewrite run_bind.
Qed.

(** Construction on an element without an instance when the API is already
    defined (X9), with points that [$.each] can visit and a callback that is
    falsy or a function that returns, so that the draw runs to its end: no
    script is requested and nothing is queued, only the flag
    [Plugin.loaded] is set; the instance is allocated with the element's
    style and content saved, drawn at once on a new map, and stored in the
    element's data; the method returns the collection. *)
Theorem construction_when_ready (w : world) (e : elem_id) (el : element)
    (options : jsval) :
  google_defined (loader w) = true →
  elements (page w) !! e = Some el →
  el_data el = None →
  is_command options = false →
  iterable (obj_get "points" (merged options)) = true →
  callback_returns options = true →
  (fn_googleMaps (selected [e]) options w).1 = Ret (RCollection (selected [e])) ∧
  loader (exec (fn_googleMaps (selected [e]) options) w) =
    with_loaded true (loader w) ∧
  elements (page (exec (fn_googleMaps (selected [e]) options) w)) =
    <[e := with_data (Some (length (instances (page w)))) el]>
      (elements (page w)) ∧
  instances (page (exec (fn_googleMaps (selected [e]) options) w)) =
    instances (page w) ++
    [{| this_element := e; this_options := merged options;
        _centered := false; _zoomed := false;
        _styles := el_style el; _content := Some (el_html el);
        this_map := Some (length (maps (api w)));
        this_bounds := Some (length (boundses (api w))) |}] ∧
  map_element <$> maps (api (exec (fn_googleMaps (selected [e]) options) w)) =
    (map_element <$> maps (api w)) ++ [e].
Proof.
  intros Hg He Hd Hc Hpts Hcb.
  set (self := with_saved (el_style el) (Some (el_html el)) (fresh e options)).
  set (n := length (instances (page w))).
  destruct (draw_run (on_loader (with_loaded true) (constructed e options el w))
              n self Hg) as (w' & Hr & Hl & Hp & Hm & _).
  { by apply list_lookup_middle. }
  { done. }
  rewrite (callback_returns_outcome self options) in Hr by done.
  assert (apply_to options e w =
          (Ret tt, exec (jq_set_data e n) w')) as Happ.
  { unfold apply_to, jq_data.
    rewrite !run_bind, (run_deref_element _ _ _ He). simpl. rewrite Hd.
    assert ((i ← Plugin.new e options; jq_set_data e i) w =
            (Ret tt, exec (jq_set_data e n) w')) as Hnew.
    { rewrite run_bind, new_unfold, He, run_bind.
      rewrite load_run_ready by done. fold n. by rewrite Hr. }
    destruct options; try done; by rewrite Hnew. }
  unfold exec, fn_googleMaps. simpl. rewrite !run_bind, Happ. simpl.
  rewrite Hl, Hp, Hm. simpl. split_and!; try done.
  - by rewrite (alter_insert _ _ _ el).
  - unfold n. by rewrite alter_last.
  - by rewrite fmap_app.
Qed.

Lemma construction_when_ready_witness :
  script_requests
    (loader (exec (fn_googleMaps (selected [0]) zoom5)
               (run (start [div]) [ScriptLoaded]))) = [] ∧
  el_data <$>
    elements (page (exec (fn_googleMaps (selected [0]) zoom5)
                      (run (start [div]) [ScriptLoaded]))) !! 0 =
    Some (Some 0).
Proof.
  destruct (construction_when_ready (run (start [div]) [ScriptLoaded]) 0 div
              zoom5 eq_refl eq_refl eq_refl eq_refl eq_refl eq_refl)
    as (_ & Hl & He & _).
  rewrite Hl, He. split; reflexivity.
Defined.

(** A construction whose draw throws (X19).  When the API is already
    defined and the draw of the new instance cannot run to its end, because
    [$.each] cannot visit the points or because the callback is truthy and
    no function, or a function that throws, the constructor throws and the
    method with it: the instance exists and has its map and bounds, but it
    was never stored in the element's data, and the elements of the page
    are as they were, so that the same call constructs once more. *)
Theorem failed_construction_stores_nothing (w : world) (e : elem_id)
    (el : element) (options : jsval) :
  google_defined (loader w) = true →
  elements (page w) !! e = Some el →
  el_data el = None →
  is_command options = false →
  iterable (obj_get "points" (merged options)) = false ∨
    callback_returns options = false →
  (∃ err, (fn_googleMaps (selected [e]) options w).1 = Throw err) ∧
  elements (page (exec (fn_googleMaps (selected [e]) options) w)) =
    elements (page w) ∧
  instances (page (exec (fn_googleMaps (selected [e]) options) w)) =
    instances (page w) ++
    [{| this_element := e; this_options := merged options;
        _centered := false; _zoomed := false;
        _styles := el_style el; _content := Some (el_html el);
        this_map := Some (length (maps (api w)));
        this_bounds := Some (length (boundses (api w))) |}] ∧
  map_element <$> maps (api (exec (fn_googleMaps (selected [e]) options) w)) =
    (map_element <$> maps (api w)) ++ [e].
Proof.
  intros Hg He Hd Hc Hbad.
  set (self := with_saved (el_style el) (Some (el_html el)) (fresh e options)).
  set (n := length (instances (page w))).
  set (w0 := on_loader (with_loaded true) (constructed e options el w)).
  assert (instances (page w0) !! n = Some self) as Hs
    by (by apply list_lookup_middle).
  assert (∃ err w' ls, Plugin.draw n w0 = (Throw err, w') ∧
            elements (page w') = elements (page w) ∧
            instances (page w') =
              alter (λ _, drawn_instance self w0) n (instances (page w0)) ∧
            maps (api w') =
              maps (api w) ++ [{| map_element := e; map_listeners := ls |}])
    as (err & w' & ls & Hr & Hel & Hi & Hm).
  { destruct (iterable (obj_get "points" (merged options))) eqn:Hpts.
    - destruct Hbad as [|Hcb]; [done|].
      destruct (draw_run w0 n self Hg Hs Hpts) as (w' & Hr & _ & Hp & Hm & _).
      destruct (callback_fails_outcome self options eq_refl Hcb)
        as [err Herr].
      rewrite Herr in Hr. exists err, w', (viewport_listeners n self).
      rewrite Hp. by split_and!.
    - exists TypeError, (begun n self w0), [].
      split; [by apply draw_stops_at_points|]. by split_and!. }
  assert (apply_to options e w = (Throw err, w')) as Happ.
  { unfold apply_to, jq_data.
    rewrite !run_bind, (run_deref_element _ _ _ He). simpl. rewrite Hd.
    assert ((i ← Plugin.new e options; jq_set_data e i) w =
            (Throw err, w')) as Hnew.
    { rewrite run_bind, new_unfold, He, run_bind.
      rewrite load_run_ready by done. fold n. fold w0. by rewrite Hr. }
    destruct options; try done; by rewrite Hnew. }
  unfold exec, fn_googleMaps. simpl. rewrite !run_bind, Happ. simpl.
  rewrite Hel, Hi, Hm. split_and!; [by eexists|done| |by rewrite fmap_app].
  unfold n. simpl. by rewrite alter_last.
Qed.

Lemma failed_construction_stores_nothing_witness :
  el_data <$>
    elements (page (exec (fn_googleMaps (selected [0])
                            (VObj [("callback", VFun 0 Throws)]))
                      (run (start [div]) [ScriptLoaded]))) !! 0 = Some None ∧
  length (instances (page (exec (fn_googleMaps (selected [0])
                                   (VObj [("callback", VFun 0 Throws)]))
                             (run (start [div]) [ScriptLoaded])))) = 1.
Proof.
  destruct (failed_construction_stores_nothing
              (run (start [div]) [ScriptLoaded]) 0 div
              (VObj [("callback", VFun 0 Throws)])
              eq_refl eq_refl eq_refl eq_refl (or_intror eq_refl))
    as (_ & He & Hi & _).
  rewrite He, Hi. split; reflexivity.
Defined.

(** ** Relations that hold along every run *)

(** What every update of an instance by the plugin respects: element,
    options and saved values stay, a guard flag that is set stays set, a
    handle that is there stays there. *)
Definition honest (f : instance → instance) : Prop :=
  ∀ self,
    this_element (f self) = this_element self ∧
    this_options (f self) = this_options self ∧
    _styles (f self) = _styles self ∧
    _content (f self) = _content self ∧
    (_centered self = true → _centered (f self) = true) ∧
    (_zoomed self = true → _zoomed (f self) = true) ∧
    (is_Some (this_map self) → is_Some (this_map (f self))) ∧
    (is_Some (this_bounds self) → is_Some (this_bounds (f self))).

Lemma honest_with_map m : honest (with_map (Some m)).
Proof. intros self. simpl. split_and!; first [done|by eexists]. Qed.
Lemma honest_with_bounds b : honest (with_bounds (Some b)).
Proof. intros self. simpl. split_and!; first [done|by eexists]. Qed.
Lemma honest_with_centered : honest (with_centered true).
Proof. intros self. simpl. split_and!; done. Qed.
Lemma honest_with_zoomed : honest (with_zoomed true).
Proof. intros self. simpl. split_and!; done. Qed.

(** The elements of the instances, in heap order; [load] and [draw] leave
    them alone. *)
Definition sites (w : world) : list nat :=
  this_element <$> instances (page w).

Lemma update_instance_sites this f :
  honest f → preserves (agree sites) (update_instance this f).
Proof.
  intros Hf w. unfold agree, sites. simpl.
  rewrite (list_fmap_alter _ _ id).
  - by apply list_alter_id.
  - apply Forall_forall. intros self _. apply Hf.
Qed.

Lemma load_sites this : preserves (agree sites) (Plugin.load this).
Proof.
  unfold Plugin.load, Plugin.draw, Plugin.draw_begin, Plugin.draw_end,
    jq_getScript, new_Map, new_LatLngBounds, log, window_on_resized,
    call_function, log.
  repeat preserves_step;
    first [ by apply update_instance_sites, honest_with_map
          | by apply update_instance_sites, honest_with_bounds
          | by apply insertPoint_api_only
          | by apply zoom_api_only
          | intros ?; reflexivity ].
Qed.

(** A preorder on worlds that the primitive writes of the plugin respect
    holds from each world to the world after any event. *)
Section every_step.
Context (R : relation world) `{!PreOrder R}.
Context (Hl : ∀ g w, R w (on_loader g w)).
Context (Ha : ∀ g w, R w (on_api g w)).
Context (Hinst : ∀ this f w, honest f → R w (exec (update_instance this f) w)).
Context (Hsub : ∀ this w, R w (exec (window_on_resized this) w)).
Context (Hwrite : ∀ e f w, (∀ el, el_data (f el) = el_data el) →
                  R w (exec (update_element e f) w)).
Context (Hundata : ∀ e w, R w (exec (jq_removeData e) w)).
Context (Hconstructed : ∀ w e el options,
           elements (page w) !! e = Some el →
           R w (constructed e options el w)).
Context (Hsetdata : ∀ w e n self,
           instances (page w) !! n = Some self → this_element self = e →
           R w (exec (jq_set_data e n) w)).
Context (Hresize : ∀ w, R w (exec window_resize w)).
Context (Hother : ∀ w, R w (exec other_script w)).
Context (Hcancel : ∀ t w, timeouts (page w) !! t = Some true →
           R w (on_page (λ p, with_timeouts (<[t:=false]> (timeouts p)) p) w)).

Local Ltac leaf :=
  first [ apply Hinst; first [ apply honest_with_map | apply honest_with_bounds
                             | apply honest_with_centered
                             | apply honest_with_zoomed ]
        | apply Hsub
        | apply Hwrite; done
        | apply Hundata
        | apply Hl
        | apply Ha
        | reflexivity ].
Local Ltac go := repeat preserves_step; try (intros ?; leaf).

Lemma insertPoint_every this options :
  preserves R (Plugin.insertPoint this options).
Proof.
  unfold Plugin.insertPoint. cbv zeta.
  unfold new_LatLng, bounds_extend, new_Marker, new_InfoWindow,
    marker_setIcon, marker_setTitle, marker_addListener, update_marker.
  go.
Qed.

Lemma zoom_every this : preserves R (Plugin.zoom this).
Proof. unfold Plugin.zoom, log, map_addListener. cbv zeta. go. Qed.

Lemma draw_every this : preserves R (Plugin.draw this).
Proof.
  unfold Plugin.draw, Plugin.draw_begin, Plugin.draw_end, new_Map,
    new_LatLngBounds, log, call_function, log.
  go; first [apply insertPoint_every|apply zoom_every].
Qed.

Lemma load_every this : preserves R (Plugin.load this).
Proof. unfold Plugin.load, jq_getScript. go. apply draw_every. Qed.

Lemma remove_every this : preserves R (Plugin.remove this).
Proof. unfold Plugin.remove, jq_set_html, jq_set_attr_style. go. Qed.

Lemma destroy_every this : preserves R (Plugin.destroy this).
Proof. unfold Plugin.destroy. go. apply remove_every. Qed.

Lemma run_listener_every l : preserves R (run_listener l).
Proof. unfold run_listener, log. go. Qed.

Lemma trigger_resized_every : preserves R trigger_resized.
Proof. unfold trigger_resized. go. apply zoom_every. Qed.

Lemma timer_fires_every t : preserves R (timer_fires t).
Proof.
  intros w. unfold timer_fires. rewrite run_bind. simpl.
  destruct (timeouts (page w) !! t) as [[]|] eqn:Ht; try reflexivity.
  rewrite run_bind. simpl. etrans; [by apply Hcancel|].
  apply trigger_resized_every.
Qed.

Lemma apply_to_every options e : preserves R (apply_to options e).
Proof.
  intros w. unfold apply_to, jq_data.
  rewrite !run_bind. unfold deref_element.
  destruct (elements (page w) !! e) as [el|] eqn:He; [|reflexivity]. simpl.
  assert (R w (exec (i ← Plugin.new e options; jq_set_data e i) w)) as Hnew.
  { unfold exec. rewrite run_bind, new_unfold, He, run_bind.
    pose proof (load_every (length (instances (page w)))
                  (constructed e options el w)) as Hload.
    pose proof (load_sites (length (instances (page w)))
                  (constructed e options el w)) as Hsites.
    destruct (Plugin.load _ _) as [[[]|?] w1]; simpl in *.
    - etrans; [by apply Hconstructed|]. etrans; [exact Hload|].
      assert (sites w1 !! length (instances (page w)) = Some e) as Hn.
      { rewrite Hsites. unfold sites, constructed. cbn [page on_page instances with_instances].
        by rewrite list_lookup_fmap, list_lookup_middle. }
      unfold sites in Hn. rewrite list_lookup_fmap in Hn.
      destruct (instances (page w1) !! length (instances (page w)))
        as [self|] eqn:Hs; [|done].
      injection Hn as Hn. by eapply Hsetdata.
    - etrans; [by apply Hconstructed|exact Hload]. }
  destruct options, (el_data el); try reflexivity; try exact Hnew;
    repeat (destruct (String.eqb _ _)); try reflexivity;
    first [apply draw_every|apply remove_every|apply destroy_every].
Qed.

Lemma step_every w ev : R w (step w ev).
Proof.
  destruct ev; simpl; unfold exec.
  - generalize w. change (preserves R (fn_googleMaps c options)).
    unfold fn_googleMaps. go. apply apply_to_every.
  - generalize w. change (preserves R script_loaded).
    unfold script_loaded, googleMapsInit. go. apply draw_every.
  - generalize w. change (preserves R (bounds_changed m)).
    unfold bounds_changed. go. apply run_listener_every.
  - generalize w. change (preserves R (marker_clicked k)).
    unfold marker_clicked, log. go.
  - apply Hresize.
  - apply timer_fires_every.
  - unfold dom_write. by apply Hwrite.
  - apply Hother.
Qed.

Lemma run_every w evs : R w (run w evs).
Proof.
  revert w. induction evs as [|ev evs IH]; intros w; simpl; [reflexivity|].
  etrans; [apply step_every|apply IH].
Qed.
End every_step.

(** *** Nothing is taken back *)

(** An instance and what it has become. *)
Definition kept (self self' : instance) : Prop :=
  this_element self' = this_element self ∧
  this_options self' = this_options self ∧
  _styles self' = _styles self ∧
  _content self' = _content self ∧
  (_centered self = true → _centered self' = true) ∧
  (_zoomed self = true → _zoomed self' = true) ∧
  (is_Some (this_map self) → is_Some (this_map self')) ∧
  (is_Some (this_bounds self) → is_Some (this_bounds self')).

(** The page only grows: the elements are the same in number, the resize
    handlers are added at the end, and every instance is still there, kept
    as above. *)
Definition grows : relation world := λ w w',
  length (elements (page w')) = length (elements (page w)) ∧
  resized_handlers (page w) `prefix_of` resized_handlers (page w') ∧
  (∀ k self, instances (page w) !! k = Some self →
     ∃ self', instances (page w') !! k = Some self' ∧ kept self self').

Lemma kept_refl self : kept self self.
Proof. unfold kept. split_and!; done. Qed.

Lemma kept_trans s1 s2 s3 : kept s1 s2 → kept s2 s3 → kept s1 s3.
Proof.
  unfold kept.
  intros (He1 & Ho1 & Hs1 & Hc1 & Hce1 & Hz1 & Hm1 & Hb1)
         (He2 & Ho2 & Hs2 & Hc2 & Hce2 & Hz2 & Hm2 & Hb2).
  split_and!; try congruence; auto.
Qed.

#[global] Instance grows_preorder : PreOrder grows.
Proof.
  split.
  - intros w. split_and!; [done|done|]. intros k self Hk.
    exists self. split; [done|apply kept_refl].
  - intros w1 w2 w3 (He1 & Hh1 & Hi1) (He2 & Hh2 & Hi2). split_and!.
    + congruence.
    + by etrans.
    + intros k s1 Hk. destruct (Hi1 k s1 Hk) as (s2 & Hk2 & H12).
      destruct (Hi2 k s2 Hk2) as (s3 & Hk3 & H23).
      exists s3. split; [done|by eapply kept_trans].
Qed.

Lemma grows_same_instances w w' :
  length (elements (page w')) = length (elements (page w)) →
  resized_handlers (page w) `prefix_of` resized_handlers (page w') →
  instances (page w') = instances (page w) →
  grows w w'.
Proof.
  intros He Hh Hi. split_and!; [done|done|]. intros k self Hk.
  exists self. split; [by rewrite Hi|apply kept_refl].
Qed.

Lemma grows_loader g w : grows w (on_loader g w).
Proof. by apply grows_same_instances. Qed.

Lemma grows_api g w : grows w (on_api g w).
Proof. by apply grows_same_instances. Qed.

Lemma grows_instance this f w :
  honest f → grows w (exec (update_instance this f) w).
Proof.
  intros Hf. split_and!; [done|done|]. intros k self Hk. simpl.
  destruct (decide (k = this)) as [->|Hne].
  - rewrite list_lookup_alter_eq, Hk. simpl. eexists. split; [done|].
    apply Hf.
  - rewrite list_lookup_alter_ne by done. exists self.
    split; [done|apply kept_refl].
Qed.

Lemma grows_subscribe this w : grows w (exec (window_on_resized this) w).
Proof. apply grows_same_instances; simpl; try done. by apply prefix_app_r. Qed.

Lemma grows_element e f w : grows w (exec (update_element e f) w).
Proof. apply grows_same_instances; simpl; try done. by rewrite length_alter. Qed.

Lemma load_grows this : preserves grows (Plugin.load this).
Proof.
  apply load_every; try apply _; auto using grows_loader, grows_api,
    grows_instance, grows_subscribe.
Qed.

Lemma step_grows w ev : grows w (step w ev).
Proof.
  apply step_every; try apply _; clear w ev;
    auto using grows_loader, grows_api, grows_instance, grows_subscribe.
  - intros e f w _. apply grows_element.
  - intros e w. apply grows_element.
  - intros w e el options _. split_and!; [done|done|]. intros k self Hk.
    exists self. split; [|apply kept_refl]. simpl.
    by apply lookup_app_l_Some.
  - intros w e n self _ _. apply grows_element.
  - intros w. apply grows_same_instances; simpl;
      by destruct (resizeTimer (page w)).
  - intros w. by apply grows_same_instances.
  - intros t w _. by apply grows_same_instances.
Qed.

Lemma run_grows w evs : grows w (run w evs).
Proof.
  revert w. induction evs as [|ev evs IH]; intros w; simpl; [reflexivity|].
  etrans; [apply step_grows|apply IH].
Qed.

(** No event resets a guard flag (X10).  Whatever happens on the page,
    redraws, removals and destructions included, an instance stays in the
    heap with its element and its options, a flag [_centered] or [_zoomed]
    that is set stays set, and a map or bounds handle that is there is
    never cleared. *)
Theorem guard_flags_never_reset (w : world) (evs : list event) (k : inst_id)
    (self : instance) :
  instances (page w) !! k = Some self →
  ∃ self', instances (page (run w evs)) !! k = Some self' ∧
    this_element self' = this_element self ∧
    this_options self' = this_options self ∧
    (_centered self = true → _centered self' = true) ∧
    (_zoomed self = true → _zoomed self' = true) ∧
    (is_Some (this_map self) → is_Some (this_map self')) ∧
    (is_Some (this_bounds self) → is_Some (this_bounds self')).
Proof.
  intros Hk. destruct (run_grows w evs) as (_ & _ & Hi).
  destruct (Hi k self Hk) as (self' & Hk' & He & Ho & _ & _ & Hc & Hz & Hm & Hb).
  exists self'. by split_and!.
Qed.

Lemma guard_flags_never_reset_witness :
  ∃ self', instances (page (run notified_once
             [Call (selected [0]) (VStr "redraw"); WindowResize;
              Call (selected [0]) (VStr "destroy")])) !! 0 = Some self' ∧
    _zoomed self' = true.
Proof.
  assert (∃ self, instances (page notified_once) !! 0 = Some self ∧
                  _zoomed self = true) as (self & Hs & Hz).
  { eexists. split; vm_compute; reflexivity. }
  destruct (guard_flags_never_reset notified_once
              [Call (selected [0]) (VStr "redraw"); WindowResize;
               Call (selected [0]) (VStr "destroy")] 0 self Hs)
    as (self' & Hs' & _ & _ & _ & Hz' & _).
  exists self'. split; [exact Hs'|exact (Hz' Hz)].
Defined.

(** No event takes a resize handler off the window (X11): along any run
    the handlers bound so far stay bound, in their order, and in every
    world reached from the start of the page each of them belongs to an
    instance that has a map, so the resize signal never fails on a
    handler. *)
Theorem resize_handlers_only_accumulate :
  (∀ w evs,
     resized_handlers (page w) `prefix_of` resized_handlers (page (run w evs))) ∧
  (∀ dom evs, (trigger_resized (run (start dom) evs)).1 = Ret tt).
Proof.
  split.
  - intros w evs. by destruct (run_grows w evs) as (_ & Hh & _).
  - intros dom evs. destruct (run_subscribed dom evs) as (_ & Hb & _).
    destruct (zoom_all (resized_handlers (page (run (start dom) evs)))
                (run (start dom) evs) Hb) as (w' & Hr & _).
    unfold trigger_resized. rewrite run_bind. simpl. by rewrite Hr.
Qed.

(** ** The resize timer *)








(** ** The registry of instances *)

(** The data of an element names an instance of the heap, and that instance
    sits on this element. *)
Definition registered (w : world) : Prop :=
  ∀ e el i, elements (page w) !! e = Some el → el_data el = Some i →
    ∃ self, instances (page w) !! i = Some self ∧ this_element self = e.

Lemma registered_same w w' :
  elements (page w') = elements (page w) →
  instances (page w') = instances (page w) →
  keeps registered w w'.
Proof. intros He Hi H e el i. rewrite He, Hi. apply H. Qed.

Lemma registered_element e f w :
  (∀ el i, el_data (f el) = Some i →
     el_data el = Some i ∨
     ∃ self, instances (page w) !! i = Some self ∧ this_element self = e) →
  keeps registered w (exec (update_element e f) w).
Proof.
  intros Hf H e' el' i. simpl. intros He' Hd.
  destruct (decide (e' = e)) as [->|Hne].
  - rewrite list_lookup_alter_eq in He'.
    apply fmap_Some in He' as (el & Hel & ->).
    destruct (Hf el i Hd) as [Hd'|Hs]; [by eapply H|done].
  - rewrite list_lookup_alter_ne in He' by done. by eapply H.
Qed.

Lemma step_registered w ev : keeps registered w (step w ev).
Proof.
  apply step_every; try apply _; clear w ev.
  - intros g w. by apply registered_same.
  - intros g w. by apply registered_same.
  - intros this f w Hf H e el i He Hd. simpl in *.
    destruct (H e el i He Hd) as (self & Hs & Hse).
    destruct (decide (i = this)) as [->|Hne].
    + rewrite list_lookup_alter_eq, Hs. simpl. eexists. split; [done|].
      by rewrite (proj1 (Hf self)).
    + rewrite list_lookup_alter_ne by done. by exists self.
  - intros this w. by apply registered_same.
  - intros e f w Hf. apply registered_element. intros el i.
    rewrite Hf. by left.
  - intros e w. apply registered_element. by intros el i.
  - intros w e el options _ H e' el' i He' Hd. simpl in *.
    destruct (H e' el' i He' Hd) as (self & Hs & Hse).
    exists self. split; [by apply lookup_app_l_Some|done].
  - intros w e n self Hs Hse. apply registered_element.
    intros el i [= <-]. right. by exists self.
  - intros w. apply registered_same; simpl;
      by destruct (resizeTimer (page w)).
  - intros w. by apply registered_same.
  - intros t w _. by apply registered_same.
Qed.

Lemma run_registered w evs : keeps registered w (run w evs).
Proof.
  revert w. induction evs as [|ev evs IH]; intros w; simpl; [reflexivity|].
  etrans; [apply step_registered|apply IH].
Qed.

(** The data of an element always names its own instance (X13).  On a
    page whose elements carry no instance when the script is evaluated,
    whatever happens afterwards, the instance an element's data names is in
    the heap and sits on this very element; so no two elements share an
    instance. *)
Theorem data_names_own_instance (dom : list element) (evs : list event) :
  Forall (λ el, el_data el = None) dom →
  let w := run (start dom) evs in
  (∀ e el i, elements (page w) !! e = Some el → el_data el = Some i →
     ∃ self, instances (page w) !! i = Some self ∧ this_element self = e) ∧
  (∀ e1 e2 el1 el2 i,
     elements (page w) !! e1 = Some el1 → elements (page w) !! e2 = Some el2 →
     el_data el1 = Some i → el_data el2 = Some i → e1 = e2).
Proof.
  intros Hdom w.
  assert (registered w) as H.
  { apply run_registered. intros e el i He Hd. simpl in He.
    rewrite Forall_lookup in Hdom. apply Hdom in He. congruence. }
  split; [exact H|].
  intros e1 e2 el1 el2 i H1 H2 Hd1 Hd2.
  destruct (H e1 el1 i H1 Hd1) as (s1 & Hs1 & <-).
  destruct (H e2 el2 i H2 Hd2) as (s2 & Hs2 & <-). congruence.
Qed.

Lemma data_names_own_instance_witness :
  ∃ self, instances (page one_map) !! 0 = Some self ∧ this_element self = 0.
Proof.
  assert (∃ el, elements (page one_map) !! 0 = Some el ∧
                el_data el = Some 0) as (el & He & Hd).
  { eexists. split; vm_compute; reflexivity. }
  assert (Forall (λ el, el_data el = None) [div]) as Hdom.
  { by repeat constructor. }
  unfold one_map in *.
  pose proof (data_names_own_instance [div]
                [ScriptLoaded; Call (selected [0]) (VObj [])] Hdom) as H.
  cbv zeta in H. destruct H as [H _]. exact (H 0 el 0 He Hd).
Defined.

(** ** Removing what was constructed *)

(** The method called on a collection of one element. *)
Lemma step_call_one w e options :
  step w (Call (selected [e]) options) = exec (apply_to options e) w.
Proof.
  unfold step, exec, fn_googleMaps. simpl. rewrite !run_bind.
  by destruct (apply_to options e w) as [[[]|?] ?].
Qed.

(** Whatever [load] does afterwards, the constructor leaves an instance
    that sits on the element and holds its style and content. *)
Lemma apply_to_constructs w options e el :
  elements (page w) !! e = Some el → el_data el = None →
  is_command options = false →
  ∃ self,
    instances (page (exec (apply_to options e) w))
      !! length (instances (page w)) = Some self ∧
    this_element self = e ∧ _styles self = el_style el ∧
    _content self = Some (el_html el) ∧ this_options self = merged options.
Proof.
  intros He Hd Hc.
  assert (exec (apply_to options e) w =
          exec (i ← Plugin.new e options; jq_set_data e i) w) as ->.
  { unfold exec, apply_to, jq_data.
    rewrite !run_bind, (run_deref_element _ _ _ He). simpl. rewrite Hd.
    by destruct options. }
  unfold exec. rewrite run_bind, new_unfold, He, run_bind.
  destruct (load_grows (length (instances (page w)))
              (constructed e options el w)) as (_ & _ & Hi).
  destruct (Hi (length (instances (page w)))
              (with_saved (el_style el) (Some (el_html el)) (fresh e options)))
    as (self & Hs & Hke & Hko & Hks & Hkc & _).
  { unfold constructed. simpl. by apply list_lookup_middle. }
  destruct (Plugin.load _ _) as [[[]|?] w1]; simpl in *;
    exists self; by split_and!.
Qed.

Definition styled : element :=
  {| el_style := Some "height: 300px;"; el_html := "Loading map";
     el_data := None |}.

(** [remove] is the inverse of the construction for the content, and for
    the style where there was one (X14).  An instance is constructed on an
    element; whatever happens afterwards (the map drawn, the container
    rewritten by the API or by others, redraws, earlier removals), as long
    as the element's data still names this instance, the command ['remove']
    gives the element the content it had when the instance was
    constructed, and the style it had then if it had one; without a style
    then, the style is left as it is now.  Data and the other elements are
    untouched. *)
Theorem remove_restores_what_was_saved (w : world) (e : elem_id)
    (el el1 : element) (options : jsval) (evs : list event) :
  elements (page w) !! e = Some el → el_data el = None →
  is_command options = false →
  let n := length (instances (page w)) in
  let w1 := run (step w (Call (selected [e]) options)) evs in
  elements (page w1) !! e = Some el1 → el_data el1 = Some n →
  elements (page (step w1 (Call (selected [e]) (VStr "remove")))) =
    <[e := {| el_style := match el_style el with
                          | Some s => Some s
                          | None => el_style el1
                          end;
              el_html := el_html el; el_data := Some n |}]>
      (elements (page w1)).
Proof.
  intros He Hd Hc n w1 He1 Hd1.
  destruct (apply_to_constructs w options e el He Hd Hc)
    as (self & Hs & Hse & Hss & Hsc & _).
  rewrite <-step_call_one in Hs.
  destruct (run_grows (step w (Call (selected [e]) options)) evs)
    as (_ & _ & Hi).
  destruct (Hi _ _ Hs) as (self' & Hs' & Hke & _ & Hks & Hkc & _).
  fold n w1 in Hs'.
  assert (elements (page w1) !! this_element self' = Some el1) as He1'.
  { by rewrite Hke, Hse. }
  destruct (remove_run w1 n self' el1 Hs' He1')
    as (w2 & Hr & _ & _ & _ & _ & Hel).
  rewrite step_call_one. unfold exec, apply_to, jq_data.
  rewrite !run_bind, (run_deref_element _ _ _ He1). simpl. rewrite Hd1.
  simpl. rewrite Hr. simpl. rewrite Hel, Hke, Hse. f_equal.
  unfold restored. rewrite Hks, Hkc, Hss, Hsc, Hd1. simpl.
  by destruct (el_style el).
Qed.

(** A styled container gets a map, the API renders into it, the map is
    redrawn. *)
Definition restyling : list event :=
  [ScriptLoaded; rendered; Call (selected [0]) (VStr "redraw")].

Lemma remove_restores_what_was_saved_witness :
  elements (page (step (run (step (start [styled])
                               (Call (selected [0]) (VObj []))) restyling)
                    (Call (selected [0]) (VStr "remove")))) =
  [{| el_style := Some "height: 300px;"; el_html := "Loading map";
      el_data := Some 0 |}].
Proof.
  assert (∃ el1, elements (page (run (step (start [styled])
                                        (Call (selected [0]) (VObj [])))
                                   restyling)) = [el1] ∧
                 el_data el1 = Some 0) as (el1 & He1 & Hd1).
  { eexists. split; vm_compute; reflexivity. }
  pose proof (remove_restores_what_was_saved (start [styled]) 0 styled el1
                (VObj []) restyling eq_refl eq_refl eq_refl) as H.
  cbv zeta in H. rewrite He1 in H. exact (H eq_refl Hd1).
Defined.

(** ** Destroying *)

(** ['destroy'] detaches the instance from its element and nothing more
    (X15).  The element gets its saved content and style back as after
    ['remove'] and loses its data; the instance itself stays in the heap,
    the handlers bound to the window's resize signal stay bound, and the
    script-loading state and the objects of the mapping API are untouched.
    Afterwards every command on the element is without effect. *)
Theorem destroy_detaches (w : world) (e : elem_id) (el : element)
    (i : inst_id) (self : instance) :
  elements (page w) !! e = Some el → el_data el = Some i →
  instances (page w) !! i = Some self → this_element self = e →
  let w' := step w (Call (selected [e]) (VStr "destroy")) in
  elements (page w') =
    <[e := with_data None (restored self el)]> (elements (page w)) ∧
  instances (page w') = instances (page w) ∧
  resized_handlers (page w') = resized_handlers (page w) ∧
  loader w' = loader w ∧ api w' = api w ∧
  (∀ command, step w' (Call (selected [e]) (VStr command)) = w').
Proof.
  intros He Hd Hs Hse w'. subst e.
  destruct (destroy_run w i self el Hs He)
    as (w2 & Hr & Hl & Ha & Hi & Hh & Hel).
  assert (w' = w2) as ->.
  { unfold w'. rewrite step_call_one. unfold exec, apply_to, jq_data.
    rewrite !run_bind, (run_deref_element _ _ _ He). simpl. rewrite Hd.
    simpl. by rewrite Hr. }
  split_and!; try done.
  intros command. rewrite step_call_one. unfold exec.
  rewrite (apply_to_command_ignored w2 command (this_element self)
             (with_data None (restored self el))); [done| |by left].
  rewrite Hel. apply list_lookup_insert_eq. by eapply lookup_lt_Some.
Qed.

Lemma destroy_detaches_witness :
  elements (page (step responsive_map (Call (selected [0]) (VStr "destroy"))))
    = [div] ∧
  resized_handlers
    (page (step responsive_map (Call (selected [0]) (VStr "destroy")))) = [0] ∧
  step (step responsive_map (Call (selected [0]) (VStr "destroy")))
       (Call (selected [0]) (VStr "redraw")) =
  step responsive_map (Call (selected [0]) (VStr "destroy")).
Proof.
  assert (∃ el self, elements (page responsive_map) !! 0 = Some el ∧
            el_data el = Some 0 ∧
            instances (page responsive_map) !! 0 = Some self ∧
            this_element self = 0 ∧
            <[0 := with_data None (restored self el)]>
              (elements (page responsive_map)) = [div] ∧
            resized_handlers (page responsive_map) = [0])
    as (el & self & He & Hd & Hs & Hse & Hel & Hh).
  { eexists _, _. split_and!; vm_compute; reflexivity. }
  destruct (destroy_detaches responsive_map 0 el 0 self He Hd Hs Hse)
    as (H1 & _ & H3 & _ & _ & H6).
  split_and!.
  - exact (eq_trans H1 Hel).
  - exact (eq_trans H3 Hh).
  - apply H6.
Defined.

(** ** The options of an instance *)

(** The options fall back to the defaults (X16).  The instance constructed
    on an element that carries none reads every option as the caller gave
    it when the caller's value is not [undefined], and as the default
    otherwise, also when the caller's options are no object at all; and
    this holds whatever [load] did with the instance afterwards. *)
Theorem options_fall_back_to_defaults (w : world) (e : elem_id)
    (el : element) (options : jsval) :
  elements (page w) !! e = Some el → el_data el = None →
  is_command options = false →
  ∃ self,
    instances (page (step w (Call (selected [e]) options)))
      !! length (instances (page w)) = Some self ∧
    ∀ k, obj_get k (this_options self) =
         if defined (prop options k) then prop options k
         else obj_get k defaults.
Proof.
  intros He Hd Hc.
  destruct (apply_to_constructs w options e el He Hd Hc)
    as (self & Hs & _ & _ & _ & Ho).
  exists self. split; [by rewrite step_call_one|].
  intros k. rewrite Ho. unfold merged. rewrite !jq_extend_get. simpl.
  destruct (defined (prop options k)); [done|].
  by destruct (obj_get k defaults).
Qed.

Lemma options_fall_back_to_defaults_witness :
  ∃ self,
    instances (page (step (start [div]) (Call (selected [0]) zoom5))) !! 0 =
      Some self ∧
    obj_get "zoom" (this_options self) = VNum 5 ∧
    obj_get "responsive" (this_options self) = VBool false ∧
    obj_get "points" (this_options self) = VArr [].
Proof.
  destruct (options_fall_back_to_defaults (start [div]) 0 div zoom5
              eq_refl eq_refl eq_refl) as (self & Hs & Hk).
  exists self. split_and!.
  - exact Hs.
  - exact (Hk "zoom").
  - exact (Hk "responsive").
  - exact (Hk "points").
Defined.
